(** * BIONIC training orchestration: [bionic/train.py]

    A shallow embedding of the [Trainer] class: model construction
    ([_init_model], [_init_model_weights]), the epoch loop ([train]), the
    mini-batch loop ([_train_step]) and the head of the inference pass
    ([forward]).

    Conventions.
    - Loss values are Python floats and zero-dimensional tensors in the
      source; they are embedded as exact rationals [Q], compared up to
      [Qeq].  Rounding, infinities and NaN are outside the model.
    - Exceptions are values of [exn], threaded by the [result] monad.
    - The Bionic encoder, the loss functions, the samplers and Adam live in
      modules that are not part of [train.py]; they are the fields of the
      [Backend] class and every result is stated for an arbitrary backend.
    - [model.state_dict()] returns the parameter tensors themselves and the
      optimizer updates them in place: a stored dictionary is a view of the
      live parameters, read when it is used.
    - Calls into the optimizer and the module API, and the writes into the
      numpy epoch accumulator, are recorded in an event log carried by the
      trainer, so that "how often" and "in which order" can be stated.
    - Progress printing is left out; of the tensorboard logging only what
      can fail is kept.  [forward] is modelled up to the embeddings, the
      files it writes afterwards are not. *)

From Stdlib Require Import QArith Ascii.
From stdpp Require Import base list strings.

Open Scope nat_scope.

(** ** Exceptions *)

Inductive exn : Type :=
  | ValueError (msg : string)
  | TypeError
  | AttributeError
  | IndexError
  | UnboundLocalError
  | ZeroDivisionError
  | RuntimeError
  | FileNotFoundError.

Inductive result (A : Type) : Type :=
  | Ok (a : A)
  | Raise (e : exn).
Arguments Ok {A} a.
Arguments Raise {A} e.

#[global] Instance result_ret : MRet result := @Ok.
#[global] Instance result_bind : MBind result := λ A B f m,
  match m with
  | Ok a => f a
  | Raise e => Raise e
  end.

(** [for x in l: acc = f(acc, x)], stopping at the first exception. *)
Fixpoint foldM {A B : Type} (f : A → B → result A) (a : A) (l : list B) : result A :=
  match l with
  | [] => Ok a
  | x :: l' => a' ← f a x; foldM f a' l'
  end.

(** ** Python, numpy and torch primitives used by the trainer *)

(** Builtin [sum]: starts from [0] and adds from the left. *)
Definition py_sum (l : list Q) : Q := foldl Qplus 0%Q l.

(** Truthiness of an optional number: [None] and zero are falsy. *)
Definition truthy_nat (o : option nat) : bool :=
  match o with
  | Some (S _) => true
  | _ => false
  end.

Definition truthy_Q (o : option Q) : bool :=
  match o with
  | Some q => negb (Qeq_bool q 0)
  | None => false
  end.

(** [np.zeros(n)]. *)
Definition np_zeros (n : nat) : list Q := replicate n 0%Q.

(** [a[i] += x] and [a[i] = x] on a numpy array; an index past the end
    raises [IndexError]. *)
Definition np_iadd (a : list Q) (i : nat) (x : Q) : result (list Q) :=
  match a !! i with
  | Some y => Ok (<[i := (y + x)%Q]> a)
  | None => Raise IndexError
  end.

Definition np_set (a : list Q) (i : nat) (x : Q) : result (list Q) :=
  match a !! i with
  | Some _ => Ok (<[i := x]> a)
  | None => Raise IndexError
  end.

(** [np.array_split(ary, n)] for an integer [n]: [n] sections, the first
    [len(ary) mod n] of them one element longer than the others; a
    non-positive [n] raises [ValueError]. *)
Definition section_sizes (total nsections : nat) : list nat :=
  replicate (total mod nsections) (total / nsections + 1)
  ++ replicate (nsections - total mod nsections) (total / nsections).

Definition array_split {A : Type} (ary : list A) (nsections : nat) : result (list (list A)) :=
  if nsections =? 0 then Raise (ValueError "number sections must be larger than 0.")
  else Ok (reshape (section_sizes (length ary) nsections) ary).

(** [torch.split(t, split_size)] along dimension 0: chunks of [split_size]
    rows, the last one possibly shorter, and always at least one chunk.  A
    zero [split_size] is only accepted for an empty tensor. *)
Fixpoint chunks {A : Type} (fuel size : nat) (l : list A) : list (list A) :=
  match fuel with
  | 0 => []
  | S fuel' =>
      match l with
      | [] => []
      | _ => take size l :: chunks fuel' size (drop size l)
      end
  end.

Definition torch_split {A : Type} (l : list A) (split_size : nat) : result (list (list A)) :=
  match split_size, l with
  | 0, [] => Ok [[]]
  | 0, _ => Raise RuntimeError
  | _, [] => Ok [[]]
  | _, _ => Ok (chunks (length l) split_size l)
  end.

(** [zip(a, b, c)]. *)
Fixpoint zip3 {A B C : Type} (a : list A) (b : list B) (c : list C) : list (A * B * C) :=
  match a, b, c with
  | x :: a', y :: b', z :: c' => (x, y, z) :: zip3 a' b' c'
  | _, _, _ => []
  end.

(** [enumerate(l)]. *)
Definition enumerate {A : Type} (l : list A) : list (nat * A) := zip (seq 0 (length l)) l.

(** [x < y] on floats. *)
Definition Qlt_bool (x y : Q) : bool := negb (Qle_bool y x).

(** An integer as a float, as in [len(self.index) / self.params.batch_size]. *)
Definition Qnat (n : nat) : Q := inject_Z (Z.of_nat n).

(** ** Events *)

Inductive slot_kind : Type := Recon | Cls.

Inductive event : Type :=
  | EvZeroGrad                         (* self.optimizer.zero_grad() *)
  | EvLosses (curr_losses : list Q)    (* the loss terms computed for a batch *)
  | EvBackward (loss_sum : Q)          (* loss_sum.backward() *)
  | EvOptStep                          (* self.optimizer.step() *)
  | EvAccum (kind : slot_kind) (slot : nat)  (* a write into epoch_losses[slot] *)
  | EvLoadStateDict                    (* self.model.load_state_dict(...) *)
  | EvEval.                            (* self.model.eval() *)

(** ** Configuration ([self.params]) *)

Record Config : Type := {
  epochs : nat;
  batch_size : nat;
  sample_size : option nat;
  initialization : string;
  load_pretrained_model : bool;
  use_tensorboard : bool
}.

(** ** External collaborators *)

Class Backend : Type := {
  (** the Bionic module together with its Adam optimizer *)
  Params : Type;
  StateDict : Type;
  Submodule : Type;
  Adj : Type;
  Label : Type;
  LabelMask : Type;
  Output : Type;
  Pred : Type;
  Emb : Type;
  (** [Bionic(len(index), gat_shapes, embedding_size, len(adj), ..., n_classes=...)] *)
  Bionic : nat → nat → option (list nat) → Params;
  (** the modules visited by [model.apply], in visiting order *)
  modules : Params → list Submodule;
  has_weight : Submodule → bool;
  (** [torch.nn.init.kaiming_uniform_(model.weight, a=0.1)] and
      [torch.nn.init.xavier_uniform_(model.weight)]; they raise on a weight
      whose fan-in and fan-out cannot be computed *)
  kaiming_uniform_ : Submodule → Params → result Params;
  xavier_uniform_ : Submodule → Params → result Params;
  (** [torch.load(f"models/{out_name}_model.pt")]; it raises, for one, when
      the file does not exist *)
  torch_load : result StateDict;
  (** what the dictionary of [model.state_dict()] reads while the model has
      the given parameters *)
  state_dict : Params → StateDict;
  (** [model.load_state_dict(sd)]; it raises when the keys or the shapes of
      [sd] are not those of the model *)
  load_state_dict : StateDict → Params → result Params;
  (** [label.shape[1]] *)
  label_shape1 : Label → nat;
  (** [self.model(training_datasets, data_flows, batch_features, batch_masks,
      rand_net_idxs=...)] on the batch with the given node ids; the first
      number stands for the random neighbourhoods drawn by the loaders *)
  model_call : Params → nat → option (list nat) → list nat → Output;
  label_preds_of : Output → option (list Pred);
  (** [masked_scaled_mse(output, self.adj[i], self.weights[i], node_ids,
      batch_masks[:, j], lambda_)], arguments [i], [node_ids], [j] *)
  masked_scaled_mse : Output → nat → list nat → nat → Q;
  (** [classification_loss(pred, labels[node_ids, :], label_masks[node_ids],
      lambda_)] *)
  classification_loss : Pred → Label → LabelMask → list nat → Q;
  (** the parameters after [loss_sum.backward(); self.optimizer.step()] *)
  adam_step : Params → nat → option (list nat) → list nat → Params;
  (** one inference call of the model, for one node *)
  embed : Params → nat → Emb;
  (** Modelled from the spec: [StatefulSampler.step(n, random)] of
      [bionic/utils/sampler.py], which is not among the sources; it returns
      the ordering of the node indices, here the one of the given draw. *)
  stateful_sampler_step : nat → nat → bool → list nat;
  (** [np.random.permutation(n)], for the given draw *)
  np_random_permutation : nat → nat → list nat
}.

Section Trainer.
Context {B : Backend}.

(** ** The trainer object *)

(** [state = {"epoch": ..., "state_dict": self.model.state_dict(),
    "best_loss": ...}].  [state_dict()] does not copy: the dictionary holds
    the parameter tensors themselves, which [self.optimizer.step()] updates
    in place, and [train] stores it without a copy.  What the stored
    dictionary reads is therefore the state of the model at the time of
    reading, not at the time of storing: it is a view of the live
    parameters. *)
Record BestState : Type := {
  bs_epoch : nat;
  bs_state_dict : Params → StateDict;
  bs_best_loss : Q
}.

Record Trainer : Type := {
  params : Config;
  index : list nat;
  adj : list Adj;
  labels : option (list Label);
  label_masks : option (list LabelMask);
  model : Params;
  (** [self.train_loss, self.best_state], absent until [train] has run *)
  trained : option (list (list Q) * option BestState);
  (** ghost state: the events so far and the number of random draws *)
  log : list event;
  draws : nat
}.

Definition emit (t : Trainer) (e : event) : Trainer :=
  {| params := params t; index := index t; adj := adj t; labels := labels t;
     label_masks := label_masks t; model := model t; trained := trained t;
     log := log t ++ [e]; draws := draws t |}.

Definition bump (t : Trainer) : Trainer :=
  {| params := params t; index := index t; adj := adj t; labels := labels t;
     label_masks := label_masks t; model := model t; trained := trained t;
     log := log t; draws := S (draws t) |}.

Definition with_model (t : Trainer) (m : Params) : Trainer :=
  {| params := params t; index := index t; adj := adj t; labels := labels t;
     label_masks := label_masks t; model := m; trained := trained t;
     log := log t; draws := draws t |}.

Definition with_trained (t : Trainer) (train_loss : list (list Q))
    (best_state : option BestState) : Trainer :=
  {| params := params t; index := index t; adj := adj t; labels := labels t;
     label_masks := label_masks t; model := model t;
     trained := Some (train_loss, best_state);
     log := log t; draws := draws t |}.

(** ** Construction: [_init_model], [_init_model_weights] *)

(** The outputs of [_preprocess_inputs] that the training core reads. *)
Record Preprocessed : Type := {
  pp_index : list nat;
  pp_adj : list Adj;
  pp_labels : option (list Label);
  pp_label_masks : option (list LabelMask)
}.

(** [if self.labels: n_classes = [label.shape[1] for ...] else: n_classes = None] *)
Definition n_classes_of (labels : option (list Label)) : option (list nat) :=
  match labels with
  | Some (l :: ls) => Some (label_shape1 <$> l :: ls)
  | _ => None
  end.

(** The message of the [ValueError]: an f-string with the scheme's name,
    continued inside the literal onto the next source line, whose twenty
    spaces of indentation it keeps after the space that ends the first. *)
Definition unsupported_msg (scheme : string) : string :=
  "The initialization scheme " +:+ scheme
    +:+ "                     provided is not supported".

Definition _init_model_weights (cfg : Config) (p : Params) (m : Submodule) : result Params :=
  if has_weight m then
    if String.eqb (initialization cfg) "kaiming" then kaiming_uniform_ m p
    else if String.eqb (initialization cfg) "xavier" then xavier_uniform_ m p
    else Raise (ValueError (unsupported_msg (initialization cfg)))
  else Ok p.

Definition _init_model (cfg : Config) (pre : Preprocessed) : result Params :=
  let n_classes := n_classes_of (pp_labels pre) in
  let model := Bionic (length (pp_index pre)) (length (pp_adj pre)) n_classes in
  (* model.apply(self._init_model_weights) *)
  model ← foldM (_init_model_weights cfg) model (modules model);
  (* model.load_state_dict(torch.load(...)) *)
  if load_pretrained_model cfg then
    sd ← torch_load;
    load_state_dict sd model
  else Ok model.

(** [Trainer.__init__], from the parsed configuration and the preprocessed
    inputs on. *)
Definition Trainer_init (cfg : Config) (pre : Preprocessed) : result Trainer :=
  model ← _init_model cfg pre;
  Ok {| params := cfg; index := pp_index pre; adj := pp_adj pre;
        labels := pp_labels pre; label_masks := pp_label_masks pre;
        model := model; trained := None; log := []; draws := 0 |}.

(** ** One mini-batch pass over the nodes: [_train_step] *)

Definition sampling (t : Trainer) : bool := truthy_nat (sample_size (params t)).

(** The local variables of [_train_step] that survive an iteration. *)
Record step_locals : Type := {
  losses : list Q;
  output : option Output
}.

(** [recon_losses]: one term per active graph.  With sub-sampling the graph
    [i] is the [j]-th of [rand_net_idx] and is scored against mask column
    [j]; without, graph [i] is scored against column [i]. *)
Definition recon_losses (t : Trainer) (rand_net_idx : option (list nat))
    (out : Output) (node_ids : list nat) : result (list Q) :=
  if sampling t then
    match rand_net_idx with
    | Some idxs =>
        Ok ((λ '(j, i), masked_scaled_mse out i node_ids j) <$> enumerate idxs)
    | None => Raise TypeError
    end
  else
    Ok ((λ i, masked_scaled_mse out i node_ids i) <$> seq 0 (length (adj t))).

(** The terms of one batch, [recon_losses + cls_losses] when the model
    returned label predictions, [recon_losses] otherwise.  [batch_labels] is
    only bound when [self.labels is not None]. *)
Definition curr_losses (t : Trainer) (rand_net_idx : option (list nat))
    (out : Output) (node_ids : list nat) : result (list Q) :=
  batch_labels ←
    match labels t with
    | Some ls =>
        match label_masks t with
        | Some ms => Ok (Some (ls, ms))
        | None => Raise TypeError
        end
    | None => Ok None
    end;
  recon ← recon_losses t rand_net_idx out node_ids;
  match label_preds_of out with
  | Some label_preds =>
      match batch_labels with
      | Some (ls, ms) =>
          Ok (recon ++ ((λ '(pred, label, label_mask),
                           classification_loss pred label label_mask node_ids)
                        <$> zip3 label_preds ls ms))
      | None => Raise UnboundLocalError
      end
  | None => Ok recon
  end.

(** The body of the loop over the batches. *)
Definition train_batch (rand_net_idx : option (list nat))
    (st : Trainer * step_locals) (node_ids : list nat) : result (Trainer * step_locals) :=
  let '(t, loc) := st in
  let t := emit t EvZeroGrad in
  let out := model_call (model t) (draws t) rand_net_idx node_ids in
  curr ← curr_losses t rand_net_idx out node_ids;
  let t := emit t (EvLosses curr) in
  let losses' := zip_with Qplus (losses loc) curr in
  let loss_sum := py_sum curr in
  (* sum([]) is the integer 0, which has no backward() *)
  t ← match curr with
      | [] => Raise AttributeError
      | _ => Ok (emit t (EvBackward loss_sum))
      end;
  let t := emit (with_model t (adam_step (model t) (draws t) rand_net_idx node_ids)) EvOptStep in
  Ok (bump t, {| losses := losses'; output := Some out |}).

(** Modelled from the spec: the per-graph loaders
    ([NeighborSamplerWithWeights], [bionic/utils/sampler.py]) are not among
    the sources.  They yield their batches in lock-step with the shared node
    ordering, so [zip(mask_splits, int_splits, *batch_loaders)] has one
    element per chunk of [int_splits], identified here by its node ids. *)
Definition step_batches (int_splits : list (list nat)) : list (list nat) := int_splits.

(** [len(batch_loaders)]; [self.train_loaders[i]] raises for [i] out of
    range, and there is one loader per graph. *)
Definition n_batch_loaders (t : Trainer) (rand_net_idx : option (list nat)) : result nat :=
  if sampling t then
    match rand_net_idx with
    | Some idxs =>
        if forallb (λ i, i <? length (adj t)) idxs then Ok (length idxs)
        else Raise IndexError
    | None => Raise TypeError
    end
  else Ok (length (adj t)).

Definition initial_losses (t : Trainer) (n_loaders : nat) : list Q :=
  match labels t with
  | Some ls => replicate (n_loaders + length ls) 0%Q
  | None => replicate n_loaders 0%Q
  end.

Definition _train_step (t : Trainer) (rand_net_idx : option (list nat))
    : result (Trainer * Output * list Q) :=
  let rand_int := stateful_sampler_step (draws t) (length (index t)) true in
  let t := bump t in
  int_splits ← torch_split rand_int (batch_size (params t));
  n_loaders ← n_batch_loaders t rand_net_idx;
  let loc := {| losses := initial_losses t n_loaders; output := None |} in
  '(t, loc) ← foldM (train_batch rand_net_idx) (t, loc) (step_batches int_splits);
  match output loc with
  | Some out => Ok (t, out, losses loc)
  | None => Raise UnboundLocalError
  end.

(** ** The epoch loop: [train] *)

(** [epoch_losses = np.zeros(...)], created afresh in every epoch. *)
Definition epoch_accumulator (t : Trainer) : list Q :=
  match labels t with
  | Some ls => np_zeros (length (adj t) + length ls)
  | None => np_zeros (length (adj t))
  end.

(** [for idx, loss in zip(rand_idxs, losses): epoch_losses[idx] += loss] *)
Definition add_recon (st : Trainer * list Q) (w : nat * Q) : result (Trainer * list Q) :=
  let '(t, epoch_losses) := st in
  let '(idx, loss) := w in
  epoch_losses ← np_iadd epoch_losses idx loss;
  Ok (emit t (EvAccum Recon idx), epoch_losses).

(** [for idx, loss in enumerate(losses[len(rand_idxs):]):
       epoch_losses[len(rand_idxs) + idx] = loss] *)
Definition set_cls (rand_idxs : list nat) (st : Trainer * list Q) (w : nat * Q)
    : result (Trainer * list Q) :=
  let '(t, epoch_losses) := st in
  let '(idx, loss) := w in
  epoch_losses ← np_set epoch_losses (length rand_idxs + idx) loss;
  Ok (emit t (EvAccum Cls (length rand_idxs + idx)), epoch_losses).

(** The body of [for rand_idxs in idx_split]. *)
Definition train_pass (st : Trainer * list Q) (rand_idxs : list nat)
    : result (Trainer * list Q) :=
  let '(t, epoch_losses) := st in
  '(t, _, losses) ← _train_step t (Some rand_idxs);
  st ← foldM add_recon (t, epoch_losses) (zip rand_idxs losses);
  foldM (set_cls rand_idxs) st (enumerate (drop (length rand_idxs) losses)).

(** [b_loss.item() / (len(self.index) / self.params.batch_size)] *)
Definition batch_average (t : Trainer) (b_loss : Q) : result Q :=
  if (batch_size (params t) =? 0) || (length (index t) =? 0) then Raise ZeroDivisionError
  else Ok (b_loss / (Qnat (length (index t)) / Qnat (batch_size (params t))))%Q.

Fixpoint average_into (t : Trainer) (epoch_losses losses : list Q) : result (list Q) :=
  match epoch_losses, losses with
  | ep_loss :: epoch_losses', b_loss :: losses' =>
      avg ← batch_average t b_loss;
      rest ← average_into t epoch_losses' losses';
      Ok ((ep_loss + avg)%Q :: rest)
  | _, _ => Ok []
  end.

Definition sample_size_val (t : Trainer) : nat := default 0 (sample_size (params t)).

(** One iteration of [for epoch in range(self.params.epochs)], up to
    [train_loss.append(epoch_losses)]. *)
Definition train_epoch (t : Trainer) : result (Trainer * list Q) :=
  let epoch_losses := epoch_accumulator t in
  if sampling t then
    let rand_net_idxs := np_random_permutation (draws t) (length (adj t)) in
    let t := bump t in
    idx_split ← array_split rand_net_idxs (length (adj t) / sample_size_val t);
    foldM train_pass (t, epoch_losses) idx_split
  else
    '(t, _, losses) ← _train_step t None;
    epoch_losses ← average_into t epoch_losses losses;
    Ok (t, epoch_losses).

(** [not best_loss or sum(epoch_losses) < best_loss] *)
Definition improves (best_loss : option Q) (total : Q) : bool :=
  negb (truthy_Q best_loss)
  || match best_loss with
     | Some b => Qlt_bool total b
     | None => false
     end.

(** "Store best parameter set".  The dictionary put in the snapshot is
    [self.model.state_dict()] as it is, a view of the parameters of [self.model]
    (see [BestState]), whatever they are at the time. *)
Definition store_best (t : Trainer) (epoch : nat) (epoch_losses : list Q)
    (best : option Q * option BestState) : option Q * option BestState :=
  if improves best.1 (py_sum epoch_losses) then
    let best_loss := py_sum epoch_losses in
    (Some best_loss,
     Some {| bs_epoch := epoch + 1;
             bs_state_dict := state_dict;
             bs_best_loss := best_loss |})
  else best.

(** The local variables of [train]. *)
Record train_locals : Type := {
  train_loss : list (list Q);
  best_loss : option Q;
  best_state : option BestState
}.

(** "Add loss data to tensorboard visualization": with at most ten graphs
    the scalars are named after [self.names], an attribute that [Trainer]
    never assigns. *)
Definition tensorboard_scalars (t : Trainer) : result () :=
  if use_tensorboard (params t) then
    if length (adj t) <=? 10 then Raise AttributeError else Ok ()
  else Ok ().

Definition epoch_body (st : Trainer * train_locals) (epoch : nat)
    : result (Trainer * train_locals) :=
  let '(t, loc) := st in
  '(t, epoch_losses) ← train_epoch t;
  _ ← tensorboard_scalars t;
  let train_loss := train_loss loc ++ [epoch_losses] in
  let '(best_loss, best_state) :=
    store_best t epoch epoch_losses (best_loss loc, best_state loc) in
  Ok (t, {| train_loss := train_loss; best_loss := best_loss; best_state := best_state |}).

Definition train_init : train_locals :=
  {| train_loss := []; best_loss := None; best_state := None |}.

Definition train (t : Trainer) : result Trainer :=
  '(t, loc) ← foldM epoch_body (t, train_init) (seq 0 (epochs (params t)));
  Ok (with_trained t (train_loss loc) (best_state loc)).

(** ** The inference pass: [forward] *)

(** [self.best_state["state_dict"]]: the attribute exists once [train] has
    run, and is [None] when no epoch was run.  The dictionary is read while
    the model has the parameters training left it with. *)
Definition best_state_dict (t : Trainer) : result StateDict :=
  match trained t with
  | Some (_, Some best) => Ok (bs_state_dict best (model t))
  | Some (_, None) => Raise TypeError
  | None => Raise AttributeError
  end.

(** The parameters with which the inference loop runs. *)
Definition forward_begin (t : Trainer) : result Trainer :=
  t ← match labels t with
      | None =>
          sd ← best_state_dict t;
          model ← load_state_dict sd (model t);
          Ok (emit (with_model t model) EvLoadStateDict)
      | Some _ => Ok t
      end;
  Ok (emit t EvEval).

(** [forward] up to the embeddings: one model call per node, in the order
    of [self.index]. *)
Definition forward (t : Trainer) : result (Trainer * list Emb) :=
  t ← forward_begin t;
  Ok (t, embed (model t) <$> index t).

End Trainer.

(** ** Observations used in the statements *)

Section Observations.
Context {B : Backend}.

(** The events of one mini-batch whose loss terms are [curr]. *)
Definition batch_events (curr : list Q) : list event :=
  [EvZeroGrad; EvLosses curr; EvBackward (py_sum curr); EvOptStep].

(** [t'] is [t] up to the model parameters and the ghost state. *)
Definition same_data (t t' : Trainer) : Prop :=
  params t' = params t ∧ index t' = index t ∧ adj t' = adj t ∧
  labels t' = labels t ∧ label_masks t' = label_masks t ∧ trained t' = trained t.

(** [num_labels]: the number of configured label sets. *)
Definition n_labels (t : Trainer) : nat := from_option length 0 (labels t).

(** Modelled from the spec: the Bionic module ([bionic/model/model.py]) is
    not among the sources.  By the encoder contract it returns an optional
    per-label prediction list: one prediction per classification head it
    was built with, and [None] when it was built with [n_classes=None]. *)
Definition encoder_contract (t : Trainer) : Prop :=
  ∀ p d idx b,
    length <$> label_preds_of (model_call p d idx b) = length <$> n_classes_of (labels t).

(** Preprocessing supplies one label mask per label set. *)
Definition labels_paired (t : Trainer) : Prop :=
  length <$> label_masks t = length <$> labels t.

(** The number of classification terms of a batch under the encoder
    contract. *)
Definition cls_width (t : Trainer) : nat :=
  match labels t, label_masks t with
  | Some ls, Some ms => length ls `min` length ms
  | _, _ => 0
  end.

(** The sum over the batches of the term in position [i]. *)
Definition column_sum (i : nat) (rows : list (list Q)) : Q :=
  py_sum ((λ row, default 0%Q (row !! i)) <$> rows).

(** The part of the terms [ws], given with the slot each one belongs to,
    that belongs to slot [i]. *)
Fixpoint slot_total (i : nat) (ws : list (nat * Q)) : Q :=
  match ws with
  | [] => 0%Q
  | (idx, loss) :: ws' => ((if idx =? i then loss else 0) + slot_total i ws')%Q
  end.

(** The sum, over the passes of a sub-sampled epoch and over the batches of
    each pass, of the loss term of slot [i]; a pass is given by its group of
    graph indices and the terms of its batches, the [j]-th term of a batch
    belonging to the [j]-th graph of the group. *)
Definition sampled_slot_sum (i : nat) (passes : list (list nat * list (list Q))) : Q :=
  py_sum ((λ pass : list nat * list (list Q),
             py_sum ((λ curr, slot_total i (zip pass.1 curr)) <$> pass.2)) <$> passes).

(** The events of one pass without label sets. *)
Definition pass_events (pass : list nat * list (list Q)) : list event :=
  (pass.2 ≫= batch_events) ++ (EvAccum Recon <$> pass.1).

(** The accumulator slots written by [epoch_losses[idx] += loss], in order. *)
Definition recon_slots (evs : list event) : list nat :=
  omap (λ e, match e with EvAccum Recon i => Some i | _ => None end) evs.

(** The accumulator slots written by the classification loop, in order. *)
Definition cls_slots (evs : list event) : list nat :=
  omap (λ e, match e with EvAccum Cls i => Some i | _ => None end) evs.

(** The accumulator slots written by either loop, in order. *)
Definition written_slots (evs : list event) : list nat :=
  omap (λ e, match e with EvAccum _ i => Some i | _ => None end) evs.

(** Loading into a model the dictionary of its own parameters succeeds and
    leaves them as they are: [load_state_dict] copies every tensor of the
    dictionary onto the parameter of the same name. *)
Definition loads_own_state : Prop :=
  ∀ p, load_state_dict (state_dict p) p = Ok p.

(** The number of optimizer updates, gradient clearings and backward calls
    among some events. *)
Definition n_updates (evs : list event) : nat :=
  length (omap (λ e, match e with EvOptStep => Some e | _ => None end) evs).

Definition n_zero_grads (evs : list event) : nat :=
  length (omap (λ e, match e with EvZeroGrad => Some e | _ => None end) evs).

Definition n_backwards (evs : list event) : nat :=
  length (omap (λ e, match e with EvBackward _ => Some e | _ => None end) evs).

(** Once a loss has been stored, a snapshot has been stored with it. *)
Definition best_consistent (loc : train_locals) : Prop :=
  is_Some (best_loss loc) → is_Some (best_state loc).

(** The snapshot is the one of the first epoch whose total loss is the
    least among [train_loss]; before the first epoch there is none. *)
Definition first_minimum (train_loss : list (list Q)) (best : BestState) : Prop :=
  ∃ i el,
    train_loss !! i = Some el ∧
    bs_best_loss best = py_sum el ∧
    bs_epoch best = i + 1 ∧
    (∀ j el', train_loss !! j = Some el' → (bs_best_loss best <= py_sum el')%Q) ∧
    (∀ j el', j < i → train_loss !! j = Some el' → (bs_best_loss best < py_sum el')%Q).

Definition best_invariant (loc : train_locals) : Prop :=
  match best_loss loc, best_state loc with
  | None, None => train_loss loc = []
  | Some bl, Some best => bl = bs_best_loss best ∧ first_minimum (train_loss loc) best
  | _, _ => False
  end.

(** A trainer without labels, sub-sampling and tensorboard, over at least
    one graph and one node, with a positive batch size. *)
Definition unsupervised_ready (t : Trainer) : Prop :=
  sampling t = false ∧ labels t = None ∧ encoder_contract t ∧
  0 < length (adj t) ∧ batch_size (params t) ≠ 0 ∧ length (index t) ≠ 0 ∧
  use_tensorboard (params t) = false.

End Observations.

(** ** A small concrete backend

    The parameters count the optimizer updates made so far; graph [i]
    reconstructs with loss [rate * updates + i], each of the [n_heads]
    classification heads classifies with loss [100], and the random
    draws are the identity ordering. *)

Definition toy (n_heads rate : nat) : Backend := {|
  Params := nat;
  StateDict := nat;
  Submodule := bool;
  Adj := unit;
  Label := unit;
  LabelMask := unit;
  Output := nat;
  Pred := unit;
  Emb := nat * nat;
  Bionic := λ _ _ _, 0;
  modules := λ _, [false; true];
  has_weight := λ m, m;
  kaiming_uniform_ := λ _ p, Ok p;
  xavier_uniform_ := λ _ p, Ok p;
  torch_load := Ok 0;
  state_dict := λ p, p;
  load_state_dict := λ sd _, Ok sd;
  label_shape1 := λ _, 2;
  model_call := λ p _ _ _, p;
  label_preds_of := λ _, if n_heads is 0 then None else Some (replicate n_heads ());
  masked_scaled_mse := λ out i _ _, Qnat (rate * out + i);
  classification_loss := λ _ _ _ _, Qnat 100;
  adam_step := λ p _ _ _, S p;
  embed := λ p node, (p, node);
  stateful_sampler_step := λ _ n _, seq 0 n;
  np_random_permutation := λ _ n, seq 0 n
|}.

Definition toy_config (n_epochs batch : nat) (sample : option nat) (init : string) : Config :=
  {| epochs := n_epochs; batch_size := batch; sample_size := sample;
     initialization := init; load_pretrained_model := false;
     use_tensorboard := false |}.

(** A trainer over [n_nodes] nodes and [n_graphs] graphs, with [n_heads]
    label sets when [supervised]. *)
Definition toy_trainer (n_heads rate : nat) (cfg : Config) (n_nodes n_graphs : nat)
    (supervised : bool) : @Trainer (toy n_heads rate) :=
  @Build_Trainer (toy n_heads rate)
    cfg                                                       (* params *)
    (seq 0 n_nodes)                                           (* index *)
    (replicate n_graphs tt)                                   (* adj *)
    (if supervised then Some (replicate n_heads tt) else None)  (* labels *)
    (if supervised then Some (replicate n_heads tt) else None)  (* label_masks *)
    0                                                         (* model *)
    None                                                      (* trained *)
    []                                                        (* log *)
    0.                                                        (* draws *)

(** What a run leaves behind: [train_loss], the epoch and loss of
    [best_state], and the event log. *)
Definition observe {n_heads rate : nat} (r : result (@Trainer (toy n_heads rate)))
    : result (option (list (list Q) * option (nat * Q)) * list event) :=
  match r with
  | Ok t =>
      Ok (match trained t with
          | Some (tl, Some b) => Some (tl, Some (bs_epoch b, bs_best_loss b))
          | Some (tl, None) => Some (tl, None)
          | None => None
          end, log t)
  | Raise e => Raise e
  end.

(** ** Loader configuration: [_make_train_loaders] *)

(** [sizes=[max(30 - idx * 5, 5) for idx in range(n_layers)]], for
    [n_layers = self.params.gat_shapes["n_layers"]]. *)
Definition train_loader_sizes (n_layers : nat) : list Z :=
  (λ idx : nat, Z.max (30 - Z.of_nat idx * 5) 5) <$> seq 0 n_layers.

(** ** Batch counts *)

(** The number of chunks of [torch.split] on [n] rows with a positive
    [split_size]. *)
Definition n_batches (n split_size : nat) : nat :=
  if n =? 0 then 1 else (n + split_size - 1) / split_size.

Section Counts.
Context {B : Backend}.

(** The number of calls of [_train_step] in one epoch. *)
Definition passes_per_epoch (t : Trainer) : nat :=
  if sampling t then length (adj t) / sample_size_val t else 1.

(** Where the search for the least total starts afresh: at the first
    epoch, or right after an epoch whose total was zero, a stored loss of
    zero being taken for no stored loss.  [k] is the last such place before
    the final epoch. *)
Definition restart_point (train_loss : list (list Q)) (k : nat) : Prop :=
  (k = 0 ∨ ∃ el, 0 < k ∧ train_loss !! (k - 1) = Some el ∧ (py_sum el == 0)%Q) ∧
  ∀ j el, k ≤ j → S j < length train_loss → train_loss !! j = Some el →
    ¬ (py_sum el == 0)%Q.

(** The snapshot is the one of the first epoch, from epoch [k] on, whose
    total is the least of the totals from epoch [k] on. *)
Definition first_minimum_from (k : nat) (train_loss : list (list Q)) (best : BestState)
    : Prop :=
  ∃ i el,
    k ≤ i ∧
    train_loss !! i = Some el ∧
    bs_best_loss best = py_sum el ∧
    bs_epoch best = i + 1 ∧
    (∀ j el', k ≤ j → train_loss !! j = Some el' → (bs_best_loss best <= py_sum el')%Q) ∧
    (∀ j el', k ≤ j → j < i → train_loss !! j = Some el' →
       (bs_best_loss best < py_sum el')%Q).

Definition restart_invariant (loc : train_locals) : Prop :=
  match best_loss loc, best_state loc with
  | None, None => train_loss loc = []
  | Some bl, Some best =>
      bl = bs_best_loss best ∧
      ∃ k, restart_point (train_loss loc) k ∧ first_minimum_from k (train_loss loc) best
  | _, _ => False
  end.

End Counts.

(** ** Names of result files: [utils/combining_results_into_dataframe.py] *)

(** [s.split(sep)] for a separator of one character. *)
Fixpoint py_split (sep : Ascii.ascii) (s : string) : list string :=
  match s with
  | String.EmptyString => [String.EmptyString]
  | String.String c s' =>
      if Ascii.eqb c sep then String.EmptyString :: py_split sep s'
      else match py_split sep s' with
           | field :: fields => String.String c field :: fields
           | [] => [String.String c String.EmptyString]
           end
  end.

(** [s[k:]]. *)
Fixpoint py_slice_from (k : nat) (s : string) : string :=
  match k, s with
  | 0, _ => s
  | S k', String.String _ s' => py_slice_from k' s'
  | S _, String.EmptyString => String.EmptyString
  end.

(** [l[i]] on a Python list. *)
Definition py_get {A : Type} (l : list A) (i : nat) : result A :=
  match l !! i with
  | Some x => Ok x
  | None => Raise IndexError
  end.

Definition contains (c : Ascii.ascii) (s : string) : bool :=
  existsb (Ascii.eqb c) (String.list_ascii_of_string s).

Definition count_char (c : Ascii.ascii) (s : string) : nat :=
  length (List.filter (Ascii.eqb c) (String.list_ascii_of_string s)).

(** The strings that [res_into_df] and [res_into_df_for_headers] cut out of
    a file name and hand to [float]. *)
Record run_fields : Type := {
  f_epochs : string;
  f_learning_rate : string;
  f_gat_dim : string;
  f_gat_heads : string;
  f_gat_layers : string;
  f_lambda : string;
  f_folder : string
}.

(** Lines 12 to 18 of [res_into_df] (43 to 49 of [res_into_df_for_headers]);
    the conversions to [float] and the reading of the file follow them and
    are not modelled. *)
Definition parse_file_name (file : string) : result run_fields :=
  epochs ← py_get (py_split "_"%char file) 1;
  learning_rate ← py_get (py_split "_"%char file) 2;
  gat_dim ← py_get (py_split "_"%char file) 3;
  gat_heads ← py_get (py_split "_"%char file) 4;
  gat_layers ← py_get (py_split "_"%char file) 5;
  lambda_ ← py_get (py_split "_"%char file) 6;
  folder ← py_get (py_split "_"%char file) 7;
  folder ← py_get (py_split "."%char (py_slice_from 4 folder)) 0;
  Ok {| f_epochs := py_slice_from 1 epochs;
        f_learning_rate := py_slice_from 2 learning_rate;
        f_gat_dim := py_slice_from 1 gat_dim;
        f_gat_heads := py_slice_from 1 gat_heads;
        f_gat_layers := py_slice_from 1 gat_layers;
        f_lambda := py_slice_from 3 lambda_;
        f_folder := folder |}.

(** * Properties *)

(** ** The [result] monad and the list primitives *)

Lemma bind_Ok {A B : Type} (m : result A) (f : A → result B) (b : B) :
  m ≫= f = Ok b → ∃ a, m = Ok a ∧ f a = Ok b.
Proof. destruct m as [a|e]; simpl; [eauto | discriminate]. Qed.

Ltac inv_bind H :=
  let a := fresh "x" in
  let Ha := fresh "E" in
  apply bind_Ok in H; destruct H as (a & Ha & H).

Lemma foldM_cons {A B : Type} (f : A → B → result A) (a : A) (x : B) (l : list B) :
  foldM f a (x :: l) = f a x ≫= λ a', foldM f a' l.
Proof. reflexivity. Qed.

Lemma foldM_app {A B : Type} (f : A → B → result A) (a : A) (l k : list B) :
  foldM f a (l ++ k) = foldM f a l ≫= λ a', foldM f a' k.
Proof.
  revert a; induction l as [|x l IH]; intros a; simpl; [done|].
  destruct (f a x) as [a'|e]; simpl; [apply IH | done].
Qed.

Lemma foldl_Qplus (a : Q) (l : list Q) : (foldl Qplus a l == a + py_sum l)%Q.
Proof.
  unfold py_sum. revert a; induction l as [|x l IH]; intros a; simpl.
  - ring.
  - rewrite (IH (a + x)%Q), (IH (0 + x)%Q). ring.
Qed.

Lemma py_sum_cons (x : Q) (l : list Q) : (py_sum (x :: l) == x + py_sum l)%Q.
Proof. unfold py_sum at 1; simpl. rewrite foldl_Qplus. ring. Qed.

Lemma py_sum_app (l k : list Q) : (py_sum (l ++ k) == py_sum l + py_sum k)%Q.
Proof.
  induction l as [|x l IH]; simpl.
  - unfold py_sum at 2; simpl. ring.
  - rewrite !py_sum_cons, IH. ring.
Qed.

(** The terms that [losses = [loss + curr_loss for ... in zip(losses, curr)]]
    adds sum to [sum(curr)] as long as [curr] is not longer than [losses]. *)
Lemma added_terms_sum (old curr : list Q) :
  length curr ≤ length old →
  (py_sum (zip_with Qminus (zip_with Qplus old curr) old) == py_sum curr)%Q.
Proof.
  revert curr; induction old as [|o old IH]; intros [|c curr] Hlen; simpl in *;
    try reflexivity; try lia.
  rewrite !py_sum_cons, IH by lia. ring.
Qed.

Lemma length_enumerate {A : Type} (l : list A) : length (enumerate l) = length l.
Proof. unfold enumerate. rewrite length_zip_with, length_seq. lia. Qed.

Lemma length_zip3_le {A B C : Type} (a : list A) (b : list B) (c : list C) :
  length (zip3 a b c) ≤ length b.
Proof.
  revert b c; induction a as [|x a IH]; intros [|y b] [|z c]; simpl; try lia.
  specialize (IH b c). lia.
Qed.

Lemma length_zip3 {A B C : Type} (a : list A) (b : list B) (c : list C) :
  length a = length b → length c = length b → length (zip3 a b c) = length b.
Proof.
  revert b c; induction a as [|x a IH]; intros [|y b] [|z c]; simpl; try lia.
  intros. rewrite IH; lia.
Qed.

(** [torch.split] never returns an empty tuple. *)
Lemma torch_split_nonempty {A : Type} (l : list A) (n : nat) (cs : list (list A)) :
  torch_split l n = Ok cs → cs ≠ [].
Proof.
  destruct n as [|n], l as [|x l]; simpl; intros H; inversion H; subst; try done.
Qed.

Lemma torch_split_Ok {A : Type} (l : list A) (n : nat) :
  0 < n → ∃ cs, torch_split l n = Ok cs.
Proof. destruct n, l; simpl; intros; try lia; eauto. Qed.

(** [np.array_split] cuts the array into consecutive, non-empty pieces when
    there are no more sections than elements. *)
Lemma sum_section_sizes (total n : nat) :
  0 < n → sum_list (section_sizes total n) = total.
Proof.
  intros Hn. unfold section_sizes.
  rewrite sum_list_with_app, !sum_list_replicate.
  pose proof (Nat.div_mod_eq total n) as Hdm.
  pose proof (Nat.mod_upper_bound total n ltac:(lia)) as Hub.
  nia.
Qed.

Lemma array_split_concat {A : Type} (ary : list A) (n : nat) (parts : list (list A)) :
  array_split ary n = Ok parts → mjoin parts = ary ∧ length parts = n.
Proof.
  unfold array_split. destruct (n =? 0) eqn:En; [discriminate|].
  apply Nat.eqb_neq in En. intros H; inversion H; subst; clear H. split.
  - apply join_reshape, sum_section_sizes. lia.
  - rewrite length_reshape. unfold section_sizes.
    rewrite length_app, !length_replicate.
    pose proof (Nat.mod_upper_bound (length ary) n En). lia.
Qed.

Lemma array_split_zero {A : Type} (ary : list A) :
  array_split ary 0 = Raise (ValueError "number sections must be larger than 0.").
Proof. reflexivity. Qed.

Lemma length_zip3_min {A B C : Type} (a : list A) (b : list B) (c : list C) :
  length (zip3 a b c) = length a `min` (length b `min` length c).
Proof.
  revert b c; induction a as [|x a IH]; intros [|y b] [|z c]; simpl; try lia.
  rewrite IH. lia.
Qed.

Lemma Forall2_right {A C : Type} (P : A → C → Prop) (R : C → Prop) l k :
  Forall2 P l k → (∀ x y, P x y → R y) → Forall R k.
Proof. induction 1; intros HR; constructor; eauto. Qed.

Section Facts.
Context {B : Backend}.

(** ** [_train_step] *)

Lemma same_data_refl (t : Trainer) : same_data t t.
Proof. by repeat split. Qed.

Lemma same_data_trans (t1 t2 t3 : Trainer) :
  same_data t1 t2 → same_data t2 t3 → same_data t1 t3.
Proof.
  intros (?&?&?&?&?&?) (?&?&?&?&?&?). repeat split; congruence.
Qed.

Lemma curr_losses_same_data (t t' : Trainer) idx out b :
  same_data t t' → curr_losses t' idx out b = curr_losses t idx out b.
Proof.
  intros (Hp & _ & Ha & Hl & Hm & _).
  unfold curr_losses, recon_losses, sampling. by rewrite Hp, Ha, Hl, Hm.
Qed.

Lemma n_batch_loaders_same_data (t t' : Trainer) idx :
  same_data t t' → n_batch_loaders t' idx = n_batch_loaders t idx.
Proof.
  intros (Hp & _ & Ha & _). unfold n_batch_loaders, sampling. by rewrite Hp, Ha.
Qed.

Lemma recon_losses_length (t : Trainer) idx out b n recon :
  n_batch_loaders t idx = Ok n → recon_losses t idx out b = Ok recon →
  length recon = n.
Proof.
  unfold n_batch_loaders, recon_losses. destruct (sampling t).
  - destruct idx as [idxs|]; [|discriminate].
    destruct (forallb _ idxs); [|discriminate].
    intros Hn Hr; inversion Hn; inversion Hr; subst.
    by rewrite length_fmap, length_enumerate.
  - intros Hn Hr; inversion Hn; inversion Hr; subst.
    by rewrite length_fmap, length_seq.
Qed.

(** A batch has one term per active graph and, under the encoder contract,
    [cls_width] classification terms. *)
Lemma curr_losses_bounds (t : Trainer) idx out b n curr :
  n_batch_loaders t idx = Ok n → curr_losses t idx out b = Ok curr →
  n ≤ length curr ≤ length (initial_losses t n).
Proof.
  intros Hn Hc. unfold curr_losses in Hc. inv_bind Hc. inv_bind Hc.
  rename x into batch_labels, x0 into recon.
  pose proof (recon_losses_length _ _ _ _ _ _ Hn E0) as Hr.
  unfold initial_losses.
  destruct (label_preds_of out) as [preds|].
  - destruct batch_labels as [[ls ms]|]; [|discriminate].
    inversion Hc; subst; clear Hc.
    destruct (labels t) as [ls'|]; [|discriminate].
    destruct (label_masks t) as [ms'|]; [|discriminate].
    inversion E; subst.
    rewrite length_app, length_fmap, length_replicate.
    pose proof (length_zip3_le preds ls ms). lia.
  - inversion Hc; subst. destruct (labels t); rewrite length_replicate; lia.
Qed.

Lemma curr_losses_width (t : Trainer) idx p d b n curr :
  encoder_contract t →
  n_batch_loaders t idx = Ok n →
  curr_losses t idx (model_call p d idx b) b = Ok curr →
  length curr = n + cls_width t.
Proof.
  intros Hc Hn Hcurr. specialize (Hc p d idx b).
  unfold curr_losses in Hcurr. inv_bind Hcurr. inv_bind Hcurr.
  rename x into batch_labels, x0 into recon.
  pose proof (recon_losses_length _ _ _ _ _ _ Hn E0) as Hr.
  unfold cls_width.
  destruct (label_preds_of _) as [preds|]; simpl in Hc.
  - destruct batch_labels as [[ls ms]|]; [|discriminate].
    inversion Hcurr; subst; clear Hcurr.
    destruct (labels t) as [ls'|]; [|discriminate].
    destruct (label_masks t) as [ms'|]; [|discriminate].
    inversion E; subst. rewrite length_app, length_fmap, length_zip3_min.
    destruct ls as [|l ls]; simpl in Hc; [discriminate|].
    inversion Hc as [Hlen]. rewrite length_fmap in Hlen.
    change (length (l :: ls)) with (S (length ls)). lia.
  - inversion Hcurr; subst; clear Hcurr.
    destruct (labels t) as [[|l ls]|]; simpl in Hc; try discriminate;
      destruct (label_masks t); simpl; try discriminate; lia.
Qed.

Lemma train_batch_spec idx (t : Trainer) loc b t' loc' :
  train_batch idx (t, loc) b = Ok (t', loc') →
  ∃ curr,
    curr_losses t idx (model_call (model t) (draws t) idx b) b = Ok curr ∧
    curr ≠ [] ∧
    log t' = log t ++ batch_events curr ∧
    losses loc' = zip_with Qplus (losses loc) curr ∧
    output loc' = Some (model_call (model t) (draws t) idx b) ∧
    same_data t t' ∧
    draws t' = S (draws t).
Proof.
  unfold train_batch. intros H. inv_bind H. rename x into curr.
  change (curr_losses (emit t EvZeroGrad)) with (curr_losses t) in E.
  simpl in E. inv_bind H. exists curr.
  destruct curr as [|c curr]; [discriminate|].
  inversion E0; subst; clear E0. inversion H; subst; clear H. simpl.
  repeat split; try done.
  unfold batch_events. by rewrite <- !app_assoc.
Qed.

Lemma train_batches_spec idx batches : ∀ (t : Trainer) loc t' loc',
  foldM (train_batch idx) (t, loc) batches = Ok (t', loc') →
  ∃ currs,
    Forall2 (λ b curr,
      (∃ p d, curr_losses t idx (model_call p d idx b) b = Ok curr) ∧ curr ≠ [])
      batches currs ∧
    log t' = log t ++ (currs ≫= batch_events) ∧
    losses loc' = foldl (zip_with Qplus) (losses loc) currs ∧
    (batches ≠ [] ∨ is_Some (output loc) → is_Some (output loc')) ∧
    same_data t t' ∧
    draws t' = draws t + length batches.
Proof.
  induction batches as [|b batches IH]; intros t loc t' loc' H; simpl in H.
  - inversion H; subst. exists []. simpl. rewrite app_nil_r.
    split_and!; auto using same_data_refl with lia.
    intros [?|?]; done.
  - inv_bind H. destruct x as [t1 loc1].
    apply train_batch_spec in E as (curr & Hcurr & Hne & Hlog & Hls & Hout & Hsd & Hd).
    apply IH in H as (currs & Hall & Hlog' & Hls' & Hout' & Hsd' & Hd').
    exists (curr :: currs). split_and!.
    + constructor; [split; eauto|].
      eapply Forall2_impl; [exact Hall|]. intros b' c' [(p & d & Hc) Hn]. split; [|done].
      exists p, d. by rewrite <- (curr_losses_same_data t t1).
    + rewrite Hlog', Hlog. simpl. by rewrite <- app_assoc.
    + rewrite Hls', Hls. done.
    + intros _. apply Hout'. right. by rewrite Hout.
    + by apply same_data_trans with t1.
    + simpl. lia.
Qed.

Lemma train_step_spec (t : Trainer) idx t' out ls :
  _train_step t idx = Ok (t', out, ls) →
  ∃ int_splits n currs,
    torch_split (stateful_sampler_step (draws t) (length (index t)) true)
      (batch_size (params t)) = Ok int_splits ∧
    n_batch_loaders t idx = Ok n ∧
    Forall2 (λ b curr,
      (∃ p d, curr_losses t idx (model_call p d idx b) b = Ok curr) ∧ curr ≠ [])
      (step_batches int_splits) currs ∧
    log t' = log t ++ (currs ≫= batch_events) ∧
    ls = foldl (zip_with Qplus) (initial_losses t n) currs ∧
    same_data t t' ∧
    draws t' = S (draws t) + length int_splits.
Proof.
  unfold _train_step. intros H. inv_bind H. rename x into int_splits.
  inv_bind H. rename x into n. inv_bind H. destruct x as [t1 loc1].
  destruct (output loc1) as [out1|] eqn:Hout; [|discriminate].
  inversion H; subst; clear H.
  apply train_batches_spec in E1 as (currs & Hall & Hlog & Hls & _ & Hsd & Hd).
  exists int_splits, n, currs. split_and!; try done.
Qed.

(** The list of losses returned by [_train_step] is never shorter than the
    number of active graphs. *)
Lemma foldl_zip_with_length (l0 : list Q) (currs : list (list Q)) (n : nat) :
  n ≤ length l0 → Forall (λ c, n ≤ length c) currs →
  n ≤ length (foldl (zip_with Qplus) l0 currs).
Proof.
  revert l0; induction currs as [|c currs IH]; intros l0 Hl Hc; simpl; [done|].
  inversion Hc; subst. apply IH; [|done]. rewrite length_zip_with. lia.
Qed.

Lemma foldl_zip_with_length_eq (l0 : list Q) (currs : list (list Q)) :
  Forall (λ c, length c = length l0) currs →
  length (foldl (zip_with Qplus) l0 currs) = length l0.
Proof.
  revert l0; induction currs as [|c currs IH]; intros l0 Hc; simpl; [done|].
  inversion Hc as [|?? Hc1 Hc2]; subst.
  rewrite IH; rewrite length_zip_with; [lia|].
  eapply Forall_impl; [exact Hc2|]. simpl. intros; lia.
Qed.

Lemma batch_events_counts (currs : list (list Q)) :
  n_updates (currs ≫= batch_events) = length currs ∧
  n_zero_grads (currs ≫= batch_events) = length currs ∧
  n_backwards (currs ≫= batch_events) = length currs.
Proof.
  unfold n_updates, n_zero_grads, n_backwards.
  induction currs as [|c currs (IH1 & IH2 & IH3)]; [done|].
  rewrite bind_cons, !omap_app, !length_app, IH1, IH2, IH3. done.
Qed.

(** C4. Every mini-batch of [_train_step] contributes, in this order, one
    gradient clearing, one backward call on the sum of all loss terms of the
    batch (one per active graph, then one per label set) and one optimizer
    update, and nothing else: a step over [k] batches makes exactly [k]
    updates, [k] clearings and [k] backward calls. *)
Theorem train_step_one_update_per_batch (t : Trainer) idx t' out ls :
  _train_step t idx = Ok (t', out, ls) →
  ∃ int_splits currs evs,
    torch_split (stateful_sampler_step (draws t) (length (index t)) true)
      (batch_size (params t)) = Ok int_splits ∧
    Forall2 (λ b curr, ∃ p d, curr_losses t idx (model_call p d idx b) b = Ok curr)
      (step_batches int_splits) currs ∧
    log t' = log t ++ evs ∧
    evs = currs ≫= (λ curr,
            [EvZeroGrad; EvLosses curr; EvBackward (py_sum curr); EvOptStep]) ∧
    n_updates evs = length (step_batches int_splits) ∧
    n_zero_grads evs = length (step_batches int_splits) ∧
    n_backwards evs = length (step_batches int_splits).
Proof.
  intros H.
  apply train_step_spec in H as (int_splits & n & currs & Hs & _ & Hall & Hlog & _).
  exists int_splits, currs, (currs ≫= batch_events).
  pose proof (batch_events_counts currs) as (H1 & H2 & H3).
  rewrite (Forall2_length _ _ _ Hall).
  split_and!; try done.
  eapply Forall2_impl; [exact Hall|]. by intros b c [Hc _].
Qed.

(** C3. For every mini-batch [b] processed by [_train_step] (after the
    batches [pre] of the same step), the terms that the batch adds to the
    [losses] list sum to the scalar on which [backward] is called. *)
Theorem train_step_recorded_terms_sum_to_backward
    (t : Trainer) idx int_splits n pre b post t1 loc1 t2 loc2 :
  encoder_contract t →
  torch_split (stateful_sampler_step (draws t) (length (index t)) true)
    (batch_size (params t)) = Ok int_splits →
  n_batch_loaders t idx = Ok n →
  step_batches int_splits = pre ++ b :: post →
  foldM (train_batch idx)
    (bump t, {| losses := initial_losses t n; output := None |}) pre = Ok (t1, loc1) →
  train_batch idx (t1, loc1) b = Ok (t2, loc2) →
  ∃ loss_sum curr,
    log t2 = log t1 ++ [EvZeroGrad; EvLosses curr; EvBackward loss_sum; EvOptStep] ∧
    losses loc2 = zip_with Qplus (losses loc1) curr ∧
    (py_sum (zip_with Qminus (losses loc2) (losses loc1)) == loss_sum)%Q.
Proof.
  intros Hcontract _ Hn _ Hpre Hb.
  apply train_batches_spec in Hpre as (currs & Hall & _ & Hls & _ & Hsd & _).
  apply train_batch_spec in Hb as (curr & Hcurr & _ & Hlog & Hls2 & _).
  exists (py_sum curr), curr. split_and!; [done..|].
  rewrite Hls2. apply added_terms_sum.
  assert (Hwidth : ∀ b' p d c,
    curr_losses t idx (model_call p d idx b') b' = Ok c → length c = n + cls_width t).
  { intros. by eapply curr_losses_width. }
  rewrite (curr_losses_same_data (bump t) t1) in Hcurr by done.
  change (curr_losses (bump t)) with (curr_losses t) in *.
  rewrite (Hwidth _ _ _ _ Hcurr), Hls. simpl.
  apply foldl_zip_with_length.
  - unfold initial_losses, cls_width.
    destruct (labels t), (label_masks t); rewrite length_replicate; lia.
  - apply (Forall2_right _ _ _ _ Hall). intros b' c [(p & d & Hc) _].
    by rewrite (Hwidth _ _ _ _ Hc).
Qed.

(** ** The epoch without sub-sampling *)

Lemma column_sum_nil (i : nat) : column_sum i [] = 0%Q.
Proof. reflexivity. Qed.

Lemma column_sum_cons (i : nat) (c : list Q) (currs : list (list Q)) :
  (column_sum i (c :: currs) == default 0 (c !! i) + column_sum i currs)%Q.
Proof. unfold column_sum. rewrite fmap_cons. apply py_sum_cons. Qed.

(** [losses] after the batches: position by position, the initial value
    plus the terms of all batches. *)
Lemma foldl_zip_with_lookup (currs : list (list Q)) : ∀ (l0 : list Q) i x,
  Forall (λ c, length c = length l0) currs →
  foldl (zip_with Qplus) l0 currs !! i = Some x →
  ∃ x0, l0 !! i = Some x0 ∧ (x == x0 + column_sum i currs)%Q.
Proof.
  induction currs as [|c currs IH]; intros l0 i x Hlen Hx; simpl in Hx.
  - exists x. split; [done|]. rewrite column_sum_nil. ring.
  - inversion Hlen as [|?? Hc Hcs]; subst.
    apply IH in Hx as (x1 & Hx1 & Hsum).
    + rewrite lookup_zip_with in Hx1.
      destruct (l0 !! i) as [a|]; [|discriminate]. simpl in Hx1.
      destruct (c !! i) as [b|] eqn:Hb; [|discriminate]. simpl in Hx1.
      inversion Hx1; subst. exists a. split; [done|].
      rewrite column_sum_cons, Hb, Hsum. simpl. ring.
    + rewrite length_zip_with.
      eapply Forall_impl; [exact Hcs|]. simpl. intros; lia.
Qed.

Lemma average_into_spec (t : Trainer) (epoch_losses ls r : list Q) :
  average_into t epoch_losses ls = Ok r →
  length r = length epoch_losses `min` length ls ∧
  ∀ i ep b, epoch_losses !! i = Some ep → ls !! i = Some b →
    r !! i = Some (ep + b / (Qnat (length (index t)) / Qnat (batch_size (params t))))%Q.
Proof.
  revert ls r; induction epoch_losses as [|e el IH]; intros [|l ls] r H; simpl in H;
    try (inversion H; subst; split; [done|]; by intros [|i]).
  inv_bind H. inv_bind H. inversion H; subst; clear H.
  apply IH in E0 as [Hlen Hlook]. split; [simpl; lia|].
  unfold batch_average in E. destruct (_ || _); [discriminate|]. inversion E; subst.
  intros [|i] ep b; simpl; [|by apply Hlook].
  intros; simplify_eq. done.
Qed.

Lemma average_into_Ok (t : Trainer) (epoch_losses ls : list Q) :
  batch_size (params t) ≠ 0 → length (index t) ≠ 0 →
  ∃ r, average_into t epoch_losses ls = Ok r.
Proof.
  intros Hb Hn. revert ls; induction epoch_losses as [|e el IH]; intros [|l ls]; simpl; eauto.
  unfold batch_average.
  destruct (batch_size (params t)) as [|bs]; [done|].
  destruct (length (index t)) as [|nn]; [done|]. simpl.
  destruct (IH ls) as [r ->]. simpl. eauto.
Qed.

Lemma cls_width_paired (t : Trainer) : labels_paired t → cls_width t = n_labels t.
Proof.
  unfold labels_paired, cls_width, n_labels.
  destruct (labels t), (label_masks t); simpl; intros H; inversion H; lia.
Qed.

Lemma initial_losses_length (t : Trainer) (n : nat) :
  length (initial_losses t n) = n + n_labels t.
Proof.
  unfold initial_losses, n_labels. destruct (labels t); simpl; rewrite length_replicate; lia.
Qed.

Lemma epoch_accumulator_length (t : Trainer) :
  length (epoch_accumulator t) = length (adj t) + n_labels t.
Proof.
  unfold epoch_accumulator, n_labels, np_zeros.
  destruct (labels t); simpl; rewrite length_replicate; lia.
Qed.

Lemma epoch_accumulator_zero (t : Trainer) (i : nat) (x : Q) :
  epoch_accumulator t !! i = Some x → x = 0%Q.
Proof.
  unfold epoch_accumulator, np_zeros.
  destruct (labels t); intros [-> _]%lookup_replicate; done.
Qed.

Lemma initial_losses_zero (t : Trainer) (n i : nat) (x : Q) :
  initial_losses t n !! i = Some x → x = 0%Q.
Proof.
  unfold initial_losses.
  destruct (labels t); intros [-> _]%lookup_replicate; done.
Qed.

(** What [_train_step] returns under the encoder contract: one entry per
    active graph and per label set, each the sum of its terms over the
    batches. *)
Lemma train_step_losses (t : Trainer) idx t' out ls n :
  encoder_contract t → cls_width t = n_labels t →
  n_batch_loaders t idx = Ok n →
  _train_step t idx = Ok (t', out, ls) →
  ∃ currs,
    log t' = log t ++ (currs ≫= batch_events) ∧
    Forall (λ c, length c = n + n_labels t) currs ∧
    length ls = n + n_labels t ∧
    ∀ i x, ls !! i = Some x → (x == column_sum i currs)%Q.
Proof.
  intros Hcontract Hpaired Hn H.
  apply train_step_spec in H as (int_splits & n' & currs & _ & Hn' & Hall & Hlog & Hls & _).
  rewrite Hn in Hn'. inversion Hn'; subst n'. exists currs.
  assert (Hw : Forall (λ c, length c = length (initial_losses t n)) currs).
  { apply (Forall2_right _ _ _ _ Hall). intros b c [(p & d & Hc) _].
    rewrite initial_losses_length, <- Hpaired.
    by eapply curr_losses_width. }
  split_and!; [done| | |].
  - eapply Forall_impl; [exact Hw|]. simpl. intros c ->. apply initial_losses_length.
  - subst ls. rewrite foldl_zip_with_length_eq by done. apply initial_losses_length.
  - intros i x Hx. subst ls.
    apply foldl_zip_with_lookup in Hx as (x0 & Hx0 & Hsum); [|done].
    apply initial_losses_zero in Hx0. subst x0. rewrite Hsum. ring.
Qed.

Lemma n_batch_loaders_all (t : Trainer) idx :
  sampling t = false → n_batch_loaders t idx = Ok (length (adj t)).
Proof. unfold n_batch_loaders. by intros ->. Qed.

(** ** The epoch with network sub-sampling *)

Lemma same_data_emit (t : Trainer) e : same_data t (emit t e).
Proof. by repeat split. Qed.

Lemma same_data_bump (t : Trainer) : same_data t (bump t).
Proof. by repeat split. Qed.

Lemma add_recon_spec ws : ∀ (t : Trainer) el t' el',
  foldM add_recon (t, el) ws = Ok (t', el') →
  log t' = log t ++ (EvAccum Recon <$> ws.*1) ∧ same_data t t' ∧
  length el' = length el.
Proof.
  induction ws as [|[idx loss] ws IH]; intros t el t' el' H; simpl in H.
  - inversion H; subst. simpl. rewrite app_nil_r. auto using same_data_refl.
  - inv_bind H. destruct x as [t1 el1]. unfold add_recon in E. inv_bind E.
    inversion E; subst; clear E.
    apply IH in H as (Hlog & Hsd & Hlen).
    unfold np_iadd in E0. destruct (el !! idx); [|discriminate]. inversion E0; subst.
    rewrite length_insert in Hlen.
    split_and!; [|by eapply same_data_trans; [apply same_data_emit|]|done].
    rewrite Hlog. simpl. by rewrite <- app_assoc.
Qed.

Lemma set_cls_spec rand_idxs ws : ∀ (t : Trainer) el t' el',
  foldM (set_cls rand_idxs) (t, el) ws = Ok (t', el') →
  log t' = log t ++ ((λ w, EvAccum Cls (length rand_idxs + w.1)) <$> ws) ∧
  same_data t t' ∧ length el' = length el.
Proof.
  induction ws as [|[idx loss] ws IH]; intros t el t' el' H; simpl in H.
  - inversion H; subst. simpl. rewrite app_nil_r. auto using same_data_refl.
  - inv_bind H. destruct x as [t1 el1]. unfold set_cls in E. inv_bind E.
    inversion E; subst; clear E.
    apply IH in H as (Hlog & Hsd & Hlen).
    unfold np_set in E0. destruct (el !! _); [|discriminate]. inversion E0; subst.
    rewrite length_insert in Hlen.
    split_and!; [|by eapply same_data_trans; [apply same_data_emit|]|done].
    rewrite Hlog. simpl. by rewrite <- app_assoc.
Qed.

Lemma recon_slots_app (evs evs' : list event) :
  recon_slots (evs ++ evs') = recon_slots evs ++ recon_slots evs'.
Proof. apply omap_app. Qed.

Lemma recon_slots_batches (currs : list (list Q)) :
  recon_slots (currs ≫= batch_events) = [].
Proof.
  induction currs as [|c currs IH]; [done|].
  by rewrite bind_cons, recon_slots_app, IH.
Qed.

Lemma recon_slots_cons (e : event) (evs : list event) :
  recon_slots (e :: evs) =
  match e with
  | EvAccum Recon i => i :: recon_slots evs
  | _ => recon_slots evs
  end.
Proof. by destruct e as [| | | |[] ?| |]. Qed.

Lemma recon_slots_recon (idxs : list nat) :
  recon_slots (EvAccum Recon <$> idxs) = idxs.
Proof.
  induction idxs as [|i idxs IH]; [done|]. by rewrite fmap_cons, recon_slots_cons, IH.
Qed.

Lemma recon_slots_cls {A : Type} (f : A → nat) (ws : list A) :
  recon_slots ((λ w, EvAccum Cls (f w)) <$> ws) = [].
Proof.
  induction ws as [|w ws IH]; [done|]. by rewrite fmap_cons, recon_slots_cons, IH.
Qed.

Lemma n_batch_loaders_sampled (t : Trainer) idxs n :
  sampling t = true → n_batch_loaders t (Some idxs) = Ok n → n = length idxs.
Proof.
  unfold n_batch_loaders. intros ->. destruct (forallb _ _); intros H; by inversion H.
Qed.

(** One restricted pass: the optimizer events of its batches, then one
    reconstruction write per sampled graph, at the graph's own index, then
    the classification writes. *)
Lemma train_pass_spec (t : Trainer) el rand_idxs t' el' :
  sampling t = true →
  train_pass (t, el) rand_idxs = Ok (t', el') →
  ∃ currs ls,
    (∃ t1 out, _train_step t (Some rand_idxs) = Ok (t1, out, ls)) ∧
    log t' = log t ++ (currs ≫= batch_events)
             ++ (EvAccum Recon <$> rand_idxs)
             ++ ((λ w : nat * Q, EvAccum Cls (length rand_idxs + w.1))
                 <$> enumerate (drop (length rand_idxs) ls)) ∧
    same_data t t' ∧ length el' = length el.
Proof.
  intros Hs H. unfold train_pass in H. inv_bind H. destruct x as [[t1 out] ls].
  inv_bind H. destruct x as [t2 el2].
  pose proof E as Hstep.
  apply train_step_spec in Hstep
    as (int_splits & n & currs & _ & Hn & Hall & Hlog & Hls & Hsd & _).
  pose proof (n_batch_loaders_sampled _ _ _ Hs Hn) as ->.
  assert (length rand_idxs ≤ length ls) as Hlen.
  { subst ls. apply foldl_zip_with_length.
    - rewrite initial_losses_length. lia.
    - apply (Forall2_right _ _ _ _ Hall). intros b c [(p & d & Hc) _].
      by apply (curr_losses_bounds _ _ _ _ _ _ Hn) in Hc as [? _]. }
  apply add_recon_spec in E0 as (Hlog1 & Hsd1 & Hlen1).
  apply set_cls_spec in H as (Hlog2 & Hsd2 & Hlen2).
  exists currs, ls. split_and!.
  - eauto.
  - rewrite Hlog2, Hlog1, Hlog, fst_zip by done. by rewrite <- !app_assoc.
  - eauto using same_data_trans.
  - lia.
Qed.

Lemma cls_slots_cons (e : event) (evs : list event) :
  cls_slots (e :: evs) =
  match e with
  | EvAccum Cls i => i :: cls_slots evs
  | _ => cls_slots evs
  end.
Proof. by destruct e as [| | | |[] ?| |]. Qed.

Lemma cls_slots_app (evs evs' : list event) :
  cls_slots (evs ++ evs') = cls_slots evs ++ cls_slots evs'.
Proof. apply omap_app. Qed.

Lemma cls_slots_batches (currs : list (list Q)) :
  cls_slots (currs ≫= batch_events) = [].
Proof.
  induction currs as [|c currs IH]; [done|].
  by rewrite bind_cons, cls_slots_app, IH.
Qed.

Lemma cls_slots_recon (idxs : list nat) : cls_slots (EvAccum Recon <$> idxs) = [].
Proof.
  induction idxs as [|i idxs IH]; [done|]. by rewrite fmap_cons, cls_slots_cons, IH.
Qed.

Lemma cls_slots_cls {A : Type} (f : A → nat) (ws : list A) :
  cls_slots ((λ w, EvAccum Cls (f w)) <$> ws) = f <$> ws.
Proof.
  induction ws as [|w ws IH]; [done|]. by rewrite !fmap_cons, cls_slots_cons, IH.
Qed.

(** X1. Where a restricted pass writes: the reconstruction losses at the
    indices of its graphs, the [k]-th classification loss at
    [len(rand_idxs) + k]. *)
Lemma sampled_pass_slots (t : Trainer) el rand_idxs t' el' :
  sampling t = true → encoder_contract t → labels_paired t →
  train_pass (t, el) rand_idxs = Ok (t', el') →
  ∃ evs,
    log t' = log t ++ evs ∧
    recon_slots evs = rand_idxs ∧
    cls_slots evs = (λ k, length rand_idxs + k) <$> seq 0 (n_labels t).
Proof.
  intros Hs Hc Hp H.
  apply train_pass_spec in H as (currs & ls & (t1 & out & Hstep) & Hlog & _); [|done].
  assert (length ls = length rand_idxs + n_labels t) as Hlen.
  { destruct (n_batch_loaders t (Some rand_idxs)) as [n|] eqn:Hn.
    - pose proof (n_batch_loaders_sampled _ _ _ Hs Hn) as ->.
      by destruct (train_step_losses _ _ _ _ _ _ Hc (cls_width_paired _ Hp) Hn Hstep)
        as (_ & _ & _ & ? & _).
    - apply train_step_spec in Hstep as (? & ? & ? & _ & Hn' & _). congruence. }
  eexists. split; [exact Hlog|]. split.
  - by rewrite !recon_slots_app, recon_slots_batches, recon_slots_recon,
      recon_slots_cls, app_nil_r.
  - rewrite !cls_slots_app, cls_slots_batches, cls_slots_recon. simpl.
    rewrite (cls_slots_cls (λ w : nat * Q, length rand_idxs + w.1)).
    unfold enumerate.
    transitivity ((λ k, length rand_idxs + k)
                  <$> (zip (seq 0 (length (drop (length rand_idxs) ls)))
                         (drop (length rand_idxs) ls)).*1).
    { by rewrite <- list_fmap_compose. }
    rewrite fst_zip by (rewrite length_seq; lia).
    by rewrite length_drop, Hlen, Nat.add_comm, Nat.add_sub.
Qed.

Lemma sampling_same_data (t t' : Trainer) : same_data t t' → sampling t' = sampling t.
Proof. intros (Hp & _). unfold sampling. by rewrite Hp. Qed.

Lemma train_passes_spec groups : ∀ (t : Trainer) el t' el',
  sampling t = true →
  foldM train_pass (t, el) groups = Ok (t', el') →
  ∃ evs, log t' = log t ++ evs ∧ recon_slots evs = mjoin groups ∧
         same_data t t' ∧ length el' = length el.
Proof.
  induction groups as [|g groups IH]; intros t el t' el' Hs H; simpl in H.
  - inversion H; subst. exists []. rewrite app_nil_r. auto using same_data_refl.
  - inv_bind H. destruct x as [t1 el1].
    apply train_pass_spec in E as (currs & ls & _ & Hlog & Hsd & Hlen); [|done].
    apply IH in H as (evs & Hlog' & Hslots & Hsd' & Hlen');
      [|by rewrite (sampling_same_data t t1)].
    eexists. split_and!.
    + rewrite Hlog', Hlog, <- !app_assoc. reflexivity.
    + rewrite !recon_slots_app, recon_slots_batches, recon_slots_recon,
        recon_slots_cls, Hslots. done.
    + eauto using same_data_trans.
    + lia.
Qed.

Lemma sampling_sample_size (t : Trainer) : sampling t = true → 0 < sample_size_val t.
Proof.
  unfold sampling, sample_size_val. destruct (sample_size (params t)) as [[|n]|]; simpl; try done. lia.
Qed.

(** With more graphs requested per group than there are graphs, the epoch
    raises before any pass. *)
Lemma sampled_epoch_too_few_graphs (t : Trainer) :
  sampling t = true → length (adj t) < sample_size_val t →
  train_epoch t = Raise (ValueError "number sections must be larger than 0.").
Proof.
  intros Hs Hlt. unfold train_epoch. rewrite Hs.
  change (sample_size_val (bump t)) with (sample_size_val t).
  change (adj (bump t)) with (adj t).
  by rewrite Nat.div_small.
Qed.

(** X18. In an epoch with sub-sampling that runs to completion, the sample
    size [S] satisfies [1 <= S <= G]; the groups of [idx_split] are
    consecutive pieces of the drawn permutation, and the writes of the
    reconstruction loop hit exactly the slots of the groups in order: every
    slot of [0, G) exactly once, in exactly one group.  (The writes of the
    classification loop are not counted here.) *)
Theorem sampled_epoch_recon_slots_partition (t t' : Trainer) (epoch_losses : list Q) :
  sampling t = true →
  np_random_permutation (draws t) (length (adj t)) ≡ₚ seq 0 (length (adj t)) →
  train_epoch t = Ok (t', epoch_losses) →
  1 ≤ sample_size_val t ≤ length (adj t) ∧
  ∃ idx_split evs,
    array_split (np_random_permutation (draws t) (length (adj t)))
      (length (adj t) / sample_size_val t) = Ok idx_split ∧
    log t' = log t ++ evs ∧
    recon_slots evs = mjoin idx_split ∧
    recon_slots evs ≡ₚ seq 0 (length (adj t)) ∧
    NoDup (recon_slots evs) ∧
    (∀ i, i ∈ recon_slots evs ↔ i < length (adj t)).
Proof.
  intros Hs Hperm H.
  pose proof (sampling_sample_size t Hs) as HS.
  destruct (decide (length (adj t) < sample_size_val t)) as [Hlt|Hge].
  { rewrite sampled_epoch_too_few_graphs in H by done. discriminate. }
  split; [lia|].
  unfold train_epoch in H. rewrite Hs in H. inv_bind H. rename x into idx_split.
  change (sample_size_val (bump t)) with (sample_size_val t) in E.
  change (adj (bump t)) with (adj t) in E.
  apply train_passes_spec in H as (evs & Hlog & Hslots & _); [|done].
  pose proof (array_split_concat _ _ _ E) as [Hjoin _].
  exists idx_split, evs.
  assert (recon_slots evs ≡ₚ seq 0 (length (adj t))) as Hp.
  { by rewrite Hslots, Hjoin. }
  split_and!; try done.
  - rewrite Hp. apply NoDup_seq.
  - intros i. rewrite Hp, elem_of_seq. lia.
Qed.

(** *** The values accumulated by a sub-sampled epoch without label sets *)

Lemma add_recon_values ws : ∀ (t : Trainer) el t' el',
  foldM add_recon (t, el) ws = Ok (t', el') →
  ∀ i x', el' !! i = Some x' →
    ∃ x, el !! i = Some x ∧ (x' == x + slot_total i ws)%Q.
Proof.
  induction ws as [|[idx loss] ws IH]; intros t el t' el' H i x' Hx'; simpl in H.
  - inversion H; subst. exists x'. split; [done|]. simpl. ring.
  - inv_bind H. destruct x as [t1 el1]. unfold add_recon in E. inv_bind E.
    inversion E; subst; clear E.
    destruct (IH _ _ _ _ H i x' Hx') as (x1 & Hx1 & Hsum).
    unfold np_iadd in E0. destruct (el !! idx) as [y|] eqn:Hy; [|discriminate].
    inversion E0; subst; clear E0. simpl.
    destruct (decide (idx = i)) as [->|Hne].
    + rewrite list_lookup_insert_eq in Hx1 by (by eapply lookup_lt_Some).
      inversion Hx1; subst. exists y. split; [done|].
      rewrite Nat.eqb_refl, Hsum. ring.
    + rewrite list_lookup_insert_ne in Hx1 by done.
      exists x1. split; [done|].
      apply Nat.eqb_neq in Hne. rewrite Hne, Hsum. ring.
Qed.

Lemma slot_total_zip_plus (i : nat) (g : list nat) : ∀ (a b : list Q),
  length a = length b →
  (slot_total i (zip g (zip_with Qplus a b))
   == slot_total i (zip g a) + slot_total i (zip g b))%Q.
Proof.
  induction g as [|idx g IH]; intros [|x a] [|y b] Hlen; simpl in *; try lia; try ring.
  pose proof (IH a b ltac:(lia)) as IH'.
  rewrite IH'. destruct (idx =? i); ring.
Qed.

Lemma slot_total_foldl (i : nat) (g : list nat) (currs : list (list Q)) : ∀ (l0 : list Q),
  Forall (λ c, length c = length l0) currs →
  (slot_total i (zip g (foldl (zip_with Qplus) l0 currs))
   == slot_total i (zip g l0)
      + py_sum ((λ curr, slot_total i (zip g curr)) <$> currs))%Q.
Proof.
  induction currs as [|c currs IH]; intros l0 Hlen.
  - unfold py_sum. simpl. ring.
  - rewrite fmap_cons. cbn [foldl].
    inversion Hlen as [|?? Hc Hcs]; subst.
    assert (Forall (λ c0, length c0 = length (zip_with Qplus l0 c)) currs) as Hcs'.
    { rewrite length_zip_with. eapply Forall_impl; [exact Hcs|]. simpl. intros; lia. }
    pose proof (IH _ Hcs') as IH'.
    pose proof (slot_total_zip_plus i g l0 c (eq_sym Hc)) as Hplus.
    rewrite IH', py_sum_cons, Hplus. ring.
Qed.

Lemma slot_total_zeros (i : nat) (g : list nat) : ∀ n,
  (slot_total i (zip g (replicate n 0%Q)) == 0)%Q.
Proof.
  induction g as [|idx g IH]; intros [|n]; simpl; try reflexivity.
  pose proof (IH n) as IH'.
  rewrite IH'. destruct (idx =? i); ring.
Qed.

Lemma initial_losses_replicate (t : Trainer) (n : nat) :
  initial_losses t n = replicate (n + n_labels t) 0%Q.
Proof.
  unfold initial_losses, n_labels. destruct (labels t); simpl; [done|].
  by rewrite Nat.add_0_r.
Qed.

Lemma train_pass_values (t : Trainer) el rand_idxs t' el' :
  sampling t = true → encoder_contract t → cls_width t = 0 → n_labels t = 0 →
  train_pass (t, el) rand_idxs = Ok (t', el') →
  ∃ currs,
    log t' = log t ++ pass_events (rand_idxs, currs) ∧
    ∀ i x', el' !! i = Some x' →
      ∃ x, el !! i = Some x ∧
           (x' == x + py_sum ((λ curr, slot_total i (zip rand_idxs curr)) <$> currs))%Q.
Proof.
  intros Hs Hcontract Hw Hnl H. unfold train_pass in H.
  inv_bind H. destruct x as [[t1 out] ls]. inv_bind H. destruct x as [t2 el2].
  pose proof E as Hstep.
  apply train_step_spec in Hstep
    as (int_splits & n & currs & _ & Hn & Hall & Hlog & Hls & Hsd & _).
  pose proof (n_batch_loaders_sampled _ _ _ Hs Hn) as ->.
  assert (Forall (λ c, length c = length (initial_losses t (length rand_idxs))) currs) as Hlen.
  { apply (Forall2_right _ _ _ _ Hall). intros b c [(p & d & Hc) _].
    rewrite initial_losses_length, Hnl, <- Hw. by eapply curr_losses_width. }
  assert (length ls = length rand_idxs) as Hlsl.
  { subst ls. rewrite foldl_zip_with_length_eq, initial_losses_length by done. lia. }
  rewrite drop_ge in H by lia. simpl in H. inversion H; subst t2 el2; clear H.
  pose proof E0 as Hvals. apply add_recon_spec in E0 as (Hlog1 & _ & _).
  exists currs. split.
  - unfold pass_events. simpl. rewrite Hlog1, Hlog, fst_zip by lia. by rewrite <- app_assoc.
  - intros i x' Hx'.
    destruct (add_recon_values _ _ _ _ _ Hvals i x' Hx') as (x & Hx & Hsum).
    exists x. split; [done|].
    pose proof (slot_total_foldl i rand_idxs currs _ Hlen) as Hfold.
    rewrite Hsum, Hls, Hfold, initial_losses_replicate.
    pose proof (slot_total_zeros i rand_idxs (length rand_idxs + n_labels t)) as Hz.
    rewrite Hz. ring.
Qed.

Lemma cls_width_same_data (t t' : Trainer) : same_data t t' → cls_width t' = cls_width t.
Proof. intros (_ & _ & _ & Hl & Hm & _). unfold cls_width. by rewrite Hl, Hm. Qed.

Lemma n_labels_same_data (t t' : Trainer) : same_data t t' → n_labels t' = n_labels t.
Proof. intros (_ & _ & _ & Hl & _). unfold n_labels. by rewrite Hl. Qed.

Lemma encoder_contract_same_data (t t' : Trainer) :
  same_data t t' → encoder_contract t → encoder_contract t'.
Proof. intros (_ & _ & _ & Hl & _) Hc p d idx b. rewrite Hl. apply Hc. Qed.

Lemma sampled_slot_sum_cons (i : nat) pass passes :
  (sampled_slot_sum i (pass :: passes)
   == py_sum ((λ curr, slot_total i (zip pass.1 curr)) <$> pass.2)
      + sampled_slot_sum i passes)%Q.
Proof. unfold sampled_slot_sum. rewrite fmap_cons. apply py_sum_cons. Qed.

Lemma train_passes_values groups : ∀ (t : Trainer) el t' el',
  sampling t = true → encoder_contract t → cls_width t = 0 → n_labels t = 0 →
  foldM train_pass (t, el) groups = Ok (t', el') →
  ∃ passes,
    passes.*1 = groups ∧
    log t' = log t ++ (passes ≫= pass_events) ∧
    ∀ i x', el' !! i = Some x' →
      ∃ x, el !! i = Some x ∧ (x' == x + sampled_slot_sum i passes)%Q.
Proof.
  induction groups as [|g groups IH]; intros t el t' el' Hs Hc Hw Hnl H; simpl in H.
  - inversion H; subst. exists []. simpl. rewrite app_nil_r. split_and!; [done..|].
    intros i x' Hx'. exists x'. split; [done|]. unfold sampled_slot_sum, py_sum. simpl. ring.
  - inv_bind H. destruct x as [t1 el1].
    pose proof E as Hsd.
    apply train_pass_spec in Hsd as (_ & _ & _ & _ & Hsd & _); [|done].
    apply train_pass_values in E as (currs & Hlog & Hvals); [|done..].
    apply IH in H as (passes & Hfst & Hlog' & Hvals').
    + exists ((g, currs) :: passes). split_and!.
      * by rewrite fmap_cons, Hfst.
      * rewrite Hlog', Hlog, bind_cons, <- app_assoc. done.
      * intros i x' Hx'.
        destruct (Hvals' i x' Hx') as (x1 & Hx1 & Hsum1).
        destruct (Hvals i x1 Hx1) as (x & Hx & Hsum).
        exists x. split; [done|].
        rewrite sampled_slot_sum_cons, Hsum1, Hsum. simpl. ring.
    + by rewrite (sampling_same_data t t1).
    + by apply (encoder_contract_same_data t).
    + by rewrite (cls_width_same_data t t1).
    + by rewrite (n_labels_same_data t t1).
Qed.

(** C7 (amended). The accumulator of an epoch starts as
    [num_graphs + num_labels] zeros and ends with the same length.  Without
    sub-sampling each of its entries equals the sum over the epoch's batches
    of that slot's loss term divided by [num_nodes / batch_size]; with
    sub-sampling and no label set each entry equals the sum over the
    batches of the epoch's passes of that slot's loss term. *)
Theorem epoch_accumulator_entries (t t' : Trainer) (epoch_losses : list Q) :
  encoder_contract t → labels_paired t →
  train_epoch t = Ok (t', epoch_losses) →
  length (epoch_accumulator t) = length (adj t) + n_labels t ∧
  (∀ i x, epoch_accumulator t !! i = Some x → x = 0%Q) ∧
  length epoch_losses = length (adj t) + n_labels t ∧
  (sampling t = false →
   ∃ currs,
     log t' = log t ++ (currs ≫= batch_events) ∧
     ∀ i x, epoch_losses !! i = Some x →
       (x == column_sum i currs
             / (Qnat (length (index t)) / Qnat (batch_size (params t))))%Q) ∧
  (sampling t = true → n_labels t = 0 →
   ∃ passes,
     array_split (np_random_permutation (draws t) (length (adj t)))
       (length (adj t) / sample_size_val t) = Ok passes.*1 ∧
     log t' = log t ++ (passes ≫= pass_events) ∧
     ∀ i x, epoch_losses !! i = Some x → (x == sampled_slot_sum i passes)%Q).
Proof.
  intros Hcontract Hpaired H.
  pose proof (cls_width_paired _ Hpaired) as Hw.
  split; [apply epoch_accumulator_length|].
  split; [apply epoch_accumulator_zero|].
  unfold train_epoch in H. destruct (sampling t) eqn:Hs.
  - inv_bind H. rename x into idx_split.
    change (sample_size_val (bump t)) with (sample_size_val t) in E.
    change (adj (bump t)) with (adj t) in E.
    split_and!; [|done|].
    + apply train_passes_spec in H as (_ & _ & _ & _ & Hlen); [|done].
      by rewrite Hlen, epoch_accumulator_length.
    + intros _ Hnl.
      apply train_passes_values in H as (passes & Hfst & Hlog & Hvals);
        [|done|done|change (cls_width t = 0); by rewrite Hw|done].
      exists passes. rewrite Hfst. split_and!; [done..|].
      intros i x Hx. destruct (Hvals i x Hx) as (x0 & Hx0 & Hsum).
      apply epoch_accumulator_zero in Hx0. subst x0. rewrite Hsum. ring.
  - inv_bind H. destruct x as [[t1 out] ls]. inv_bind H. inversion H; subst; clear H.
    pose proof (n_batch_loaders_all t None Hs) as Hn.
    pose proof E as Hstep.
    apply train_step_spec in Hstep as (_ & _ & _ & _ & _ & _ & _ & _ & Hsd & _).
    destruct (train_step_losses _ _ _ _ _ _ Hcontract Hw Hn E)
      as (currs & Hlog & _ & Hlen & Hsum).
    apply average_into_spec in E0 as [Hrlen Hr].
    destruct Hsd as (Hp & Hi & _).
    rewrite epoch_accumulator_length in Hrlen.
    split_and!; [lia| |done].
    intros _. exists currs. split; [done|]. intros i x Hx.
    assert (i < length epoch_losses) as Hi' by (by eapply lookup_lt_Some).
    destruct (lookup_lt_is_Some_2 (epoch_accumulator t) i) as [ep Hep].
    { rewrite epoch_accumulator_length. lia. }
    destruct (lookup_lt_is_Some_2 ls i) as [b Hb]; [lia|].
    rewrite (Hr _ _ _ Hep Hb) in Hx. inversion Hx; subst; clear Hx.
    apply epoch_accumulator_zero in Hep. subst ep.
    rewrite Hp, Hi, (Hsum _ _ Hb). apply Qplus_0_l.
Qed.

(** ** The epoch loop *)

Lemma train_epoch_same_data (t t' : Trainer) el :
  train_epoch t = Ok (t', el) → same_data t t'.
Proof.
  unfold train_epoch. destruct (sampling t) eqn:Hs; intros H.
  - inv_bind H. apply train_passes_spec in H as (_ & _ & _ & Hsd & _); [|done].
    eauto using same_data_trans, same_data_bump.
  - inv_bind H. destruct x as [[t1 out] ls]. inv_bind H. inversion H; subst.
    by apply train_step_spec in E as (_ & _ & _ & _ & _ & _ & _ & _ & Hsd & _).
Qed.

(** Without labels and sub-sampling, a completed epoch has one loss per
    graph, whatever the model returns. *)
Lemma unsupervised_epoch_length (t t' : Trainer) el :
  sampling t = false → labels t = None →
  train_epoch t = Ok (t', el) →
  length el = length (adj t).
Proof.
  intros Hs Hlab H. unfold train_epoch in H. rewrite Hs in H.
  inv_bind H. destruct x as [[t1 out] ls]. inv_bind H. inversion H; subst; clear H.
  apply train_step_spec in E as (int_splits & n & currs & _ & Hn & Hall & _ & Hls & _).
  rewrite (n_batch_loaders_all t None Hs) in Hn. injection Hn as <-.
  assert (length (initial_losses t (length (adj t))) = length (adj t)) as Hinit.
  { unfold initial_losses. rewrite Hlab. apply length_replicate. }
  assert (length ls = length (adj t)) as Hlen.
  { subst ls. rewrite foldl_zip_with_length_eq; [done|].
    apply (Forall2_right _ _ _ _ Hall). intros b c [(p & d & Hc) _].
    apply (curr_losses_bounds _ _ _ _ _ _ (n_batch_loaders_all t None Hs)) in Hc. lia. }
  apply average_into_spec in E0 as [Hrlen _].
  unfold epoch_accumulator, np_zeros in Hrlen. rewrite Hlab, length_replicate in Hrlen. lia.
Qed.

Lemma epoch_body_spec (t : Trainer) loc epoch t' loc' :
  epoch_body (t, loc) epoch = Ok (t', loc') →
  ∃ el,
    train_epoch t = Ok (t', el) ∧
    train_loss loc' = train_loss loc ++ [el] ∧
    (best_loss loc', best_state loc')
      = store_best t' epoch el (best_loss loc, best_state loc).
Proof.
  unfold epoch_body. intros H. inv_bind H. destruct x as [t1 el]. inv_bind H.
  destruct (store_best _ _ _ _) as [bl bs] eqn:Hsb.
  inversion H; subst; clear H. exists el. by rewrite Hsb.
Qed.

Lemma store_best_cases (t : Trainer) epoch el bl bs :
  (is_Some bl → is_Some bs) →
  ∃ b, (store_best t epoch el (bl, bs)).2 = Some b ∧
       is_Some (store_best t epoch el (bl, bs)).1 ∧
       (bs = Some b ∨ bs_epoch b = epoch + 1).
Proof.
  intros Hc. unfold store_best. simpl.
  destruct (improves bl (py_sum el)) eqn:Himp; simpl.
  - eexists. split_and!; [done|by eexists|by right].
  - unfold improves in Himp. destruct bl as [b0|]; [|done].
    destruct (Hc ltac:(by eexists)) as [b Hb]. exists b. split_and!; [done|by eexists|by left].
Qed.

Lemma train_loop_spec es : ∀ (t : Trainer) loc t' loc',
  best_consistent loc →
  foldM epoch_body (t, loc) es = Ok (t', loc') →
  same_data t t' ∧
  best_consistent loc' ∧
  (∃ new, train_loss loc' = train_loss loc ++ new ∧
          Forall2 (λ _ el, ∃ t1 t2, same_data t t1 ∧ train_epoch t1 = Ok (t2, el)) es new) ∧
  (es ≠ [] ∨ is_Some (best_state loc) → is_Some (best_state loc')) ∧
  (∀ b, best_state loc' = Some b →
        best_state loc = Some b ∨ ∃ e, e ∈ es ∧ bs_epoch b = e + 1).
Proof.
  induction es as [|e es IH]; intros t loc t' loc' Hc H; simpl in H.
  - inversion H; subst. split_and!; auto using same_data_refl.
    + exists []. rewrite app_nil_r. split; [done|constructor].
    + intros [?|?]; done.
  - inv_bind H. destruct x as [t1 loc1].
    apply epoch_body_spec in E as (el & Hep & Htl & Hbest).
    pose proof (train_epoch_same_data _ _ _ Hep) as Hsd.
    destruct (store_best_cases t1 e el _ _ Hc) as (b1 & Hb1 & Hsome & Hcase).
    rewrite <- Hbest in Hb1, Hsome. simpl in Hb1, Hsome.
    assert (best_consistent loc1) as Hc1.
    { intros _. rewrite Hb1. by eexists. }
    apply IH in H as (Hsd' & Hc' & (new & Htl' & Hnew) & Hsome' & Hbs); [|done].
    split_and!; [eauto using same_data_trans|done| | |].
    + exists (el :: new). split.
      * rewrite Htl', Htl, <- app_assoc. done.
      * constructor; [exists t, t1; auto using same_data_refl|].
        eapply Forall2_impl; [exact Hnew|]. intros _ el' (t2 & t3 & Hsd2 & He).
        exists t2, t3. eauto using same_data_trans.
    + intros _. apply Hsome'. right. rewrite Hb1. by eexists.
    + intros b Hb. destruct (Hbs b Hb) as [Hsame|(e0 & He0 & Hep0)].
      * rewrite Hb1 in Hsame. inversion Hsame; subst b1.
        destruct Hcase as [?|?]; [by left|].
        right. exists e. split; [apply list_elem_of_here|done].
      * right. exists e0. split; [by apply list_elem_of_further|done].
Qed.

Lemma train_spec (t t' : Trainer) :
  train t = Ok t' →
  ∃ t1 tl bs,
    t' = with_trained t1 tl bs ∧ same_data t t1 ∧
    Forall2 (λ _ el, ∃ t2 t3, same_data t t2 ∧ train_epoch t2 = Ok (t3, el))
      (seq 0 (epochs (params t))) tl ∧
    (0 < epochs (params t) →
     ∃ b, bs = Some b ∧ 1 ≤ bs_epoch b ≤ epochs (params t)).
Proof.
  unfold train. intros H. inv_bind H. destruct x as [t1 loc]. inversion H; subst; clear H.
  apply train_loop_spec in E as (Hsd & _ & (new & Htl & Hnew) & Hsome & Hbs); [|by intros []].
  simpl in Htl. subst new.
  exists t1, (train_loss loc), (best_state loc). split_and!; try done.
  intros Hpos. destruct Hsome as [b Hb].
  { left. destruct (epochs (params t)); [lia|done]. }
  exists b. split; [done|].
  destruct (Hbs b Hb) as [?|(e & He & ->)]; [done|].
  apply elem_of_seq in He. lia.
Qed.

(** ** The best snapshot when no epoch has total loss zero *)

Lemma Qlt_bool_true (x y : Q) : Qlt_bool x y = true ↔ (x < y)%Q.
Proof.
  unfold Qlt_bool. rewrite negb_true_iff, <- not_true_iff_false, Qle_bool_iff.
  split; [apply Qnot_le_lt | apply Qlt_not_le].
Qed.

Lemma Qlt_bool_false (x y : Q) : Qlt_bool x y = false ↔ (y <= x)%Q.
Proof. unfold Qlt_bool. by rewrite negb_false_iff, Qle_bool_iff. Qed.

Lemma store_best_invariant (t : Trainer) loc el bl bs :
  best_invariant loc →
  Forall (λ el', ¬ (py_sum el' == 0)%Q) (train_loss loc) →
  store_best t (length (train_loss loc)) el (best_loss loc, best_state loc) = (bl, bs) →
  best_invariant
    {| train_loss := train_loss loc ++ [el]; best_loss := bl; best_state := bs |}.
Proof.
  unfold best_invariant, store_best. simpl. intros Hinv Hnz.
  destruct (best_loss loc) as [bl0|], (best_state loc) as [b0|]; try done.
  - destruct Hinv as (-> & i & el0 & Hi & Hloss & Hep & Hmin & Hfirst).
    assert (truthy_Q (Some (bs_best_loss b0)) = true) as Htruthy.
    { simpl. apply negb_true_iff, not_true_iff_false. rewrite Qeq_bool_iff, Hloss.
      eapply Forall_lookup_1 in Hnz; [exact Hnz|exact Hi]. }
    unfold improves. rewrite Htruthy. simpl.
    destruct (Qlt_bool (py_sum el) (bs_best_loss b0)) eqn:Hlt; intros H; inversion H; subst; clear H.
    + apply Qlt_bool_true in Hlt. split; [done|].
      exists (length (train_loss loc)), el. simpl. split_and!; try done.
      * by rewrite lookup_app_r, Nat.sub_diag by lia.
      * intros j el' Hj. apply lookup_app_Some in Hj as [Hj|[_ Hj]].
        -- apply Qlt_le_weak. eapply Qlt_le_trans; [exact Hlt|]. by eapply Hmin.
        -- apply list_lookup_singleton_Some in Hj as [_ ->]. apply Qle_refl.
      * intros j el' Hlen Hj. rewrite lookup_app_l in Hj by done.
        eapply Qlt_le_trans; [exact Hlt|]. by eapply Hmin.
    + apply Qlt_bool_false in Hlt. split; [done|].
      exists i, el0. split_and!; try done.
      * apply lookup_app_l_Some. done.
      * intros j el' Hj. apply lookup_app_Some in Hj as [Hj|[_ Hj]].
        -- by eapply Hmin.
        -- apply list_lookup_singleton_Some in Hj as [_ ->]. done.
      * intros j el' Hlen Hj. apply lookup_app_Some in Hj as [Hj|[Hge _]].
        -- by eapply Hfirst.
        -- apply lookup_lt_Some in Hi. lia.
  - rewrite Hinv. simpl. intros H; inversion H; subst; clear H. split; [done|].
    exists 0, el. simpl. split_and!; try done.
    + intros [|j] el' Hj; simpl in Hj; [|done]. inversion Hj; subst. apply Qle_refl.
    + intros j el' Hlt. lia.
Qed.

Lemma train_loop_extends es : ∀ (t : Trainer) loc t' loc',
  foldM epoch_body (t, loc) es = Ok (t', loc') →
  ∃ new, train_loss loc' = train_loss loc ++ new.
Proof.
  induction es as [|e es IH]; intros t loc t' loc' H; simpl in H.
  - inversion H; subst. exists []. by rewrite app_nil_r.
  - inv_bind H. destruct x as [t1 loc1].
    apply epoch_body_spec in E as (el & _ & Htl & _).
    apply IH in H as [new Hnew]. exists (el :: new).
    by rewrite Hnew, Htl, <- app_assoc.
Qed.

Lemma train_loop_best_invariant m : ∀ k (t : Trainer) loc t' loc',
  length (train_loss loc) = k →
  best_invariant loc →
  foldM epoch_body (t, loc) (seq k m) = Ok (t', loc') →
  Forall (λ el, ¬ (py_sum el == 0)%Q) (train_loss loc') →
  best_invariant loc'.
Proof.
  induction m as [|m IH]; intros k t loc t' loc' Hk Hinv H Hnz; simpl in H.
  - by inversion H; subst.
  - inv_bind H. destruct x as [t1 loc1].
    apply epoch_body_spec in E as (el & _ & Htl & Hbest).
    destruct (train_loop_extends _ _ _ _ _ H) as [new Hnew].
    pose proof Hnz as Hnz1.
    rewrite Hnew, Htl in Hnz1. apply Forall_app in Hnz1 as [Hnz1 _].
    apply (IH (S k) t1 loc1 t' loc'); [rewrite Htl, length_app; simpl; lia| |done|done].
    destruct loc1 as [tl1 bl1 bs1]. simpl in *. subst tl1 k.
    apply Forall_app in Hnz1 as [Hnz0 _].
    by eapply store_best_invariant.
Qed.

(** X2. For a training run none of whose epochs has total loss zero, the best
    snapshot holds the least epoch total and the number (counted from 1)
    of the first epoch that reached it: a later epoch with an equal total
    does not replace it. *)
Lemma best_snapshot_is_first_minimum (t t' : Trainer) tl best :
  train t = Ok t' → trained t' = Some (tl, Some best) →
  Forall (λ el, ¬ (py_sum el == 0)%Q) tl →
  first_minimum tl best.
Proof.
  unfold train. intros H Htr Hnz. inv_bind H. destruct x as [t1 loc].
  inversion H; subst; clear H. simpl in Htr. inversion Htr; subst; clear Htr.
  apply train_loop_best_invariant in E; [|done|done|done].
  unfold best_invariant in E. rewrite H1 in E.
  destruct (best_loss loc); [|done]. by destruct E.
Qed.

(** ** Inference *)

(** The dictionary that [train] stores is the model's own. *)
Lemma train_loop_state_dict_view es : ∀ (t : Trainer) loc t' loc',
  (∀ b, best_state loc = Some b → bs_state_dict b = state_dict) →
  foldM epoch_body (t, loc) es = Ok (t', loc') →
  ∀ b, best_state loc' = Some b → bs_state_dict b = state_dict.
Proof.
  induction es as [|e es IH]; intros t loc t' loc' Hview H; simpl in H.
  - by inversion H; subst.
  - inv_bind H. destruct x as [t1 loc1].
    apply epoch_body_spec in E as (el & _ & _ & Hbest).
    apply (IH t1 loc1 t' loc'); [|done].
    intros b Hb. unfold store_best in Hbest.
    destruct (improves _ _); simpl in Hbest.
    + rewrite Hb in Hbest. by inversion Hbest.
    + inversion Hbest as [[Hbl Hbs]]. apply Hview. congruence.
Qed.

(** After a run of one or more epochs, with a model that loads its own
    dictionary unchanged, [forward] computes the embeddings with the
    parameters as the last epoch left them, with labels and without: the
    reset before an unsupervised inference reads the stored dictionary, which
    holds the live parameters, whichever epoch the snapshot names. *)
Lemma forward_after_train (t0 t : Trainer) :
  loads_own_state → train t0 = Ok t → 0 < epochs (params t0) →
  ∃ t',
    forward t = Ok (t', embed (model t) <$> index t) ∧
    model t' = model t ∧
    (labels t0 = None → log t' = log t ++ [EvLoadStateDict; EvEval]) ∧
    (labels t0 ≠ None → log t' = log t ++ [EvEval]).
Proof.
  intros Hown Htrain Hpos. pose proof Htrain as Hrun.
  apply train_spec in Htrain as (t1 & tl & bs & -> & Hsd & _ & Hbs).
  destruct (Hbs Hpos) as (best & -> & _).
  assert (bs_state_dict best = state_dict) as Hview.
  { unfold train in Hrun. inv_bind Hrun. destruct x as [t2 loc].
    apply (f_equal (λ r, match r with Ok x => trained x | Raise _ => None end)) in Hrun.
    simpl in Hrun. injection Hrun as _ Hbest.
    eapply train_loop_state_dict_view; [|exact E|exact Hbest].
    intros b Hb. discriminate Hb. }
  destruct Hsd as (_ & _ & _ & Hl & _).
  unfold forward, forward_begin, best_state_dict. simpl.
  rewrite Hl. destruct (labels t0) as [ls|]; simpl.
  - eexists. split_and!; done.
  - rewrite Hview, Hown. simpl. eexists. split_and!; try done.
    intros _. simpl. by rewrite <- app_assoc.
Qed.

(** C10. With [labels] the empty list, the model is built without
    classification heads, exactly as with [labels] equal to [None]; yet
    [forward] keeps the current parameters and never consults the best
    snapshot, and the epoch accumulator has one slot per graph. *)
Theorem empty_labels_no_heads_no_reset (cfg : Config) (pre : Preprocessed) (t : Trainer) :
  pp_labels pre = Some [] → labels t = Some [] →
  n_classes_of (pp_labels pre) = None ∧
  n_classes_of (pp_labels pre) = n_classes_of None ∧
  _init_model cfg pre
    = (model ← foldM (_init_model_weights cfg)
                 (Bionic (length (pp_index pre)) (length (pp_adj pre)) None)
                 (modules (Bionic (length (pp_index pre)) (length (pp_adj pre)) None));
       if load_pretrained_model cfg then sd ← torch_load; load_state_dict sd model
       else Ok model) ∧
  forward t = Ok (emit t EvEval, embed (model t) <$> index t) ∧
  length (epoch_accumulator t) = length (adj t).
Proof.
  intros Hpre Ht. unfold _init_model, forward, forward_begin, epoch_accumulator.
  rewrite Hpre, Ht. simpl. unfold np_zeros. rewrite length_replicate.
  by split_and!.
Qed.

(** ** Construction *)

Lemma init_module_weights_cases (cfg : Config) (p : Params) (m : Submodule) :
  initialization cfg ≠ "kaiming" → initialization cfg ≠ "xavier" →
  _init_model_weights cfg p m
    = if has_weight m then Raise (ValueError (unsupported_msg (initialization cfg)))
      else Ok p.
Proof.
  intros Hk%String.eqb_neq Hx%String.eqb_neq. unfold _init_model_weights.
  by rewrite Hk, Hx.
Qed.

Lemma init_weights_unsupported (cfg : Config) (ms : list Submodule) : ∀ p,
  initialization cfg ≠ "kaiming" → initialization cfg ≠ "xavier" →
  (∃ m, m ∈ ms ∧ has_weight m = true) →
  foldM (_init_model_weights cfg) p ms
  = Raise (ValueError (unsupported_msg (initialization cfg))).
Proof.
  intros p Hk Hx. revert p. induction ms as [|m ms IH]; intros p (m' & Hin & Hw).
  - by apply elem_of_nil in Hin.
  - simpl. rewrite init_module_weights_cases by done.
    destruct (has_weight m) eqn:Hm; [done|].
    simpl. apply IH. exists m'. split; [|done].
    apply elem_of_cons in Hin as [->|?]; [congruence|done].
Qed.

(** C9. With an initialization scheme other than "kaiming" and "xavier"
    and a model that has a module with a [weight], constructing the trainer
    raises [ValueError] from [_init_model]; the exception is propagated, so
    no trainer exists on which a training step could run. *)
Theorem unsupported_initialization_fails_fast (cfg : Config) (pre : Preprocessed) :
  initialization cfg ≠ "kaiming" → initialization cfg ≠ "xavier" →
  (∃ m, m ∈ modules (Bionic (length (pp_index pre)) (length (pp_adj pre))
                       (n_classes_of (pp_labels pre)))
        ∧ has_weight m = true) →
  _init_model cfg pre = Raise (ValueError (unsupported_msg (initialization cfg))) ∧
  Trainer_init cfg pre = Raise (ValueError (unsupported_msg (initialization cfg))) ∧
  (Trainer_init cfg pre ≫= train)
  = Raise (ValueError (unsupported_msg (initialization cfg))).
Proof.
  intros Hk Hx Hm.
  assert (_init_model cfg pre
          = Raise (ValueError (unsupported_msg (initialization cfg)))) as Hinit.
  { unfold _init_model. by rewrite init_weights_unsupported. }
  unfold Trainer_init. by rewrite Hinit.
Qed.

(** ** Unsupervised training runs to completion *)

Lemma unsupervised_ready_same_data (t t' : Trainer) :
  same_data t t' → unsupervised_ready t → unsupervised_ready t'.
Proof.
  intros (Hp & Hi & Ha & Hl & _) (Hs & Hlab & Hc & Hg & Hb & Hn & Htb).
  unfold unsupervised_ready, sampling, encoder_contract in *.
  rewrite Hp, Hi, Ha, Hl. done.
Qed.

Lemma train_batch_unsupervised_Ok (t : Trainer) loc b :
  unsupervised_ready t → ∃ t' loc', train_batch None (t, loc) b = Ok (t', loc').
Proof.
  intros (Hs & Hlab & Hc & Hg & _). unfold train_batch.
  change (curr_losses (emit t EvZeroGrad)) with (curr_losses t).
  unfold curr_losses, recon_losses. rewrite Hlab, Hs. simpl.
  specialize (Hc (model t) (draws t) None b). rewrite Hlab in Hc. simpl in Hc.
  destruct (label_preds_of _); [discriminate|].
  destruct (length (adj t)) as [|g]; [lia|]. simpl. eauto.
Qed.

Lemma train_batches_unsupervised_Ok batches : ∀ (t : Trainer) loc,
  unsupervised_ready t →
  ∃ t' loc', foldM (train_batch None) (t, loc) batches = Ok (t', loc').
Proof.
  induction batches as [|b batches IH]; intros t loc Hr; [simpl; eauto|].
  destruct (train_batch_unsupervised_Ok t loc b Hr) as (t1 & loc1 & H1).
  rewrite foldM_cons, H1. simpl.
  apply IH. apply train_batch_spec in H1 as (_ & _ & _ & _ & _ & _ & Hsd & _).
  by apply (unsupervised_ready_same_data t).
Qed.

Lemma train_step_unsupervised_Ok (t : Trainer) :
  unsupervised_ready t → ∃ t' out ls, _train_step t None = Ok (t', out, ls).
Proof.
  intros Hr. pose proof Hr as (Hs & _ & _ & _ & Hb & _ & _). unfold _train_step.
  destruct (torch_split_Ok (stateful_sampler_step (draws t) (length (index t)) true)
              (batch_size (params t)) ltac:(lia)) as [cs Hcs].
  change (params (bump t)) with (params t). rewrite Hcs. simpl.
  rewrite (n_batch_loaders_all (bump t) None Hs). simpl.
  destruct (train_batches_unsupervised_Ok (step_batches cs) (bump t)
              {| losses := initial_losses (bump t) (length (adj t)); output := None |})
    as (t1 & loc1 & H1).
  { apply (unsupervised_ready_same_data t); [apply same_data_bump|done]. }
  change (adj (bump t)) with (adj t). rewrite H1. simpl.
  apply train_batches_spec in H1 as (_ & _ & _ & _ & Hout & _).
  destruct Hout as [out Hout]; [left; by eapply torch_split_nonempty|].
  rewrite Hout. eauto.
Qed.

Lemma train_epoch_unsupervised_Ok (t : Trainer) :
  unsupervised_ready t → ∃ t' el, train_epoch t = Ok (t', el).
Proof.
  intros Hr. pose proof Hr as (Hs & _ & _ & _ & Hb & Hn & _). unfold train_epoch. rewrite Hs.
  destruct (train_step_unsupervised_Ok t Hr) as (t1 & out & ls & H1). rewrite H1. simpl.
  pose proof H1 as Hsd.
  apply train_step_spec in Hsd as (_ & _ & _ & _ & _ & _ & _ & _ & Hsd & _).
  destruct (average_into_Ok t1 (epoch_accumulator t) ls) as [r Hr1].
  - destruct Hsd as (-> & _). done.
  - destruct Hsd as (_ & -> & _). done.
  - rewrite Hr1. simpl. eauto.
Qed.

Lemma train_loop_unsupervised_Ok es : ∀ (t : Trainer) loc,
  unsupervised_ready t →
  ∃ t' loc', foldM epoch_body (t, loc) es = Ok (t', loc').
Proof.
  induction es as [|e es IH]; intros t loc Hr; [simpl; eauto|].
  destruct (train_epoch_unsupervised_Ok t Hr) as (t1 & el & H1).
  apply train_epoch_same_data in H1 as Hsd.
  pose proof (unsupervised_ready_same_data _ _ Hsd Hr) as Hr1.
  assert (∃ loc1, epoch_body (t, loc) e = Ok (t1, loc1)) as [loc1 H2].
  { unfold epoch_body. rewrite H1. simpl. unfold tensorboard_scalars.
    destruct Hr1 as (_ & _ & _ & _ & _ & _ & ->). simpl.
    destruct (store_best _ _ _ _). eauto. }
  rewrite foldM_cons, H2. simpl. by apply IH.
Qed.

Lemma train_unsupervised_Ok (t : Trainer) :
  unsupervised_ready t → ∃ t', train t = Ok t'.
Proof.
  intros Hr. unfold train.
  destruct (train_loop_unsupervised_Ok (seq 0 (epochs (params t))) t train_init Hr)
    as (t1 & loc & H1).
  rewrite H1. simpl. eauto.
Qed.

(** C8. Three graphs over ten nodes, no labels, no sub-sampling, two
    epochs, batches of ten.  Whenever [train] completes, [train_loss] has two
    entries of three losses each and the best snapshot is the one of epoch 1
    or of epoch 2; and [train] does complete when the model returns no label
    predictions (it has no classification head) and tensorboard is off. *)
Theorem scenario_three_graphs_two_epochs (t : Trainer) :
  length (adj t) = 3 → length (index t) = 10 → labels t = None →
  sample_size (params t) = None → epochs (params t) = 2 →
  batch_size (params t) = 10 →
  (∀ t', train t = Ok t' →
     ∃ tl best,
       trained t' = Some (tl, Some best) ∧
       length tl = 2 ∧
       Forall (λ epoch_losses, length epoch_losses = 3) tl ∧
       (bs_epoch best = 1 ∨ bs_epoch best = 2)) ∧
  (encoder_contract t → use_tensorboard (params t) = false →
     ∃ t', train t = Ok t').
Proof.
  intros Hg Hn Hlab Hsample Hep Hbs.
  assert (sampling t = false) as Hs by (unfold sampling; by rewrite Hsample).
  split.
  - intros t' Ht'.
    apply train_spec in Ht' as (t1 & tl & bs & -> & Hsd & Hall & Hbest).
    destruct Hbest as (best & -> & Hrange); [lia|].
    exists tl, best. split_and!; try done.
    + apply Forall2_length in Hall. rewrite length_seq in Hall. lia.
    + apply (Forall2_right _ _ _ _ Hall). intros _ el (t2 & t3 & Hsd2 & He).
      apply unsupervised_epoch_length in He.
      * destruct Hsd2 as (_ & _ & Ha & _). by rewrite He, Ha.
      * by rewrite (sampling_same_data t t2).
      * destruct Hsd2 as (_ & _ & _ & Hl & _). by rewrite Hl.
    + lia.
  - intros Hc Htb. apply train_unsupervised_Ok.
    unfold unsupervised_ready. rewrite Hg, Hn, Hbs. split_and!; try done; lia.
Qed.

End Facts.

(** * Concrete runs *)

(** ** Defects *)

(** C1. One graph, one node, two epochs.  When the first epoch has total
    loss 0 and the second has total loss 5, the second epoch overwrites the
    snapshot, since [not best_loss] also holds for a stored loss of zero:
    training ends with best loss 5 at epoch 2 although the minimum, 0, was
    reached in epoch 1.  When both epochs have total loss 0, the tie
    overwrites the snapshot as well, and the stored epoch is 2, not 1. *)
Theorem zero_loss_snapshot_is_overwritten :
  observe (train (toy_trainer 0 5 (toy_config 2 1 None "xavier") 1 1 false))
  = Ok (Some ([[0%Q]; [5%Q]], Some (2, 5%Q)),
        [EvZeroGrad; EvLosses [0%Q]; EvBackward 0; EvOptStep;
         EvZeroGrad; EvLosses [5%Q]; EvBackward 5; EvOptStep])
  ∧ (py_sum [0%Q] < py_sum [5%Q])%Q
  ∧ observe (train (toy_trainer 0 0 (toy_config 2 1 None "xavier") 1 1 false))
    = Ok (Some ([[0%Q]; [0%Q]], Some (2, 0%Q)),
          [EvZeroGrad; EvLosses [0%Q]; EvBackward 0; EvOptStep;
           EvZeroGrad; EvLosses [0%Q]; EvBackward 0; EvOptStep]).
Proof. split_and!; [vm_compute; reflexivity | reflexivity | vm_compute; reflexivity]. Qed.

(** C2. Four graphs in groups of two and one label set: the pass over the
    graphs 0 and 1 stores its classification loss (100) in slot 2, and so
    does the pass over the graphs 2 and 3, replacing the reconstruction
    loss of graph 2; slot 4, the one after the graph slots, is never
    written. *)
Theorem sampled_classification_loss_lands_in_graph_slot :
  observe (train (toy_trainer 1 5 (toy_config 1 1 (Some 2) "xavier") 1 4 true))
  = Ok (Some ([[0%Q; 1%Q; 100%Q; 8%Q; 0%Q]], Some (1, 109%Q)),
        [EvZeroGrad; EvLosses [0%Q; 1%Q; 100%Q]; EvBackward 101; EvOptStep;
         EvAccum Recon 0; EvAccum Recon 1; EvAccum Cls 2;
         EvZeroGrad; EvLosses [7%Q; 8%Q; 100%Q]; EvBackward 115; EvOptStep;
         EvAccum Recon 2; EvAccum Recon 3; EvAccum Cls 2]).
Proof. vm_compute. reflexivity. Qed.

(** C5. Two graphs over one node, no labels, two epochs of one batch, with
    total loss 1 in the first epoch and 11 in the second.  The snapshot names
    epoch 1, at whose end the parameters had had one update; [forward]
    nevertheless computes the embeddings with the parameters after the
    second update, those the run ended with, exactly as it does when a label
    set is configured: the dictionary it loads is the model's own, stored
    without a copy. *)
Theorem forward_reset_reads_live_parameters :
  let t0 := toy_trainer 0 5 (toy_config 2 1 None "xavier") 1 2 false in
  let one_epoch := toy_trainer 0 5 (toy_config 1 1 None "xavier") 1 2 false in
  let with_labels := toy_trainer 1 5 (toy_config 2 1 None "xavier") 1 2 true in
  observe (train t0)
  = Ok (Some ([[0%Q; 1%Q]; [5%Q; 6%Q]], Some (1, 1%Q)),
        [EvZeroGrad; EvLosses [0%Q; 1%Q]; EvBackward 1; EvOptStep;
         EvZeroGrad; EvLosses [5%Q; 6%Q]; EvBackward 11; EvOptStep])
  ∧ (t ← train one_epoch; Ok (model t)) = Ok 1
  ∧ (t ← train t0; Ok (model t)) = Ok 2
  ∧ (t ← train t0; '(t', embs) ← forward t; Ok (model t', embs)) = Ok (2, [(2, 0)])
  ∧ (t ← train with_labels; '(t', embs) ← forward t; Ok (model t', embs))
    = Ok (2, [(2, 0)]).
Proof. split_and!; vm_compute; reflexivity. Qed.

(** C6. Four graphs in groups of two and one label set.  The pass over the
    graphs 0 and 1 writes the slots 0, 1 and 2, the pass over the graphs 2
    and 3 writes the slots 2, 3 and 2: slot 2, the reconstruction slot of
    graph 2, is written by both groups and ends up holding the
    classification loss (100), not the reconstruction loss of graph 2 (7). *)
Theorem sampled_graph_slot_written_by_two_groups :
  let t := toy_trainer 1 5 (toy_config 1 1 (Some 2) "xavier") 1 4 true in
  array_split (@np_random_permutation (toy 1 5) (draws t) (length (adj t)))
    (length (adj t) / sample_size_val t) = Ok [[0; 1]; [2; 3]]
  ∧ ∃ t1 el1 t2 el2,
      train_pass (bump t, epoch_accumulator t) [0; 1] = Ok (t1, el1) ∧
      train_pass (t1, el1) [2; 3] = Ok (t2, el2) ∧
      train_epoch t = Ok (t2, el2) ∧
      written_slots (log t1) = [0; 1; 2] ∧
      written_slots (drop (length (log t1)) (log t2)) = [2; 3; 2] ∧
      2 < length (adj t) ∧
      el2 = [0%Q; 1%Q; 100%Q; 8%Q; 0%Q].
Proof.
  intros t. split; [vm_compute; reflexivity|].
  eexists _, _, _, _. split; [vm_compute; reflexivity|].
  split; [vm_compute; reflexivity|].
  split_and!; [vm_compute; reflexivity..|vm_compute; lia|vm_compute; reflexivity].
Qed.

(** ** Counterexamples *)

(** C7 as stated fails without sub-sampling: one graph, two nodes in
    batches of one, per-batch terms 0 and 5.  The entry of the accumulator
    is 5/2, the sum of the terms is 5. *)
Lemma unsampled_epoch_entry_is_not_the_sum :
  let t := toy_trainer 0 5 (toy_config 1 1 None "xavier") 2 1 false in
  ∃ t' currs,
    train_epoch t = Ok (t', [5 # 2]) ∧
    log t' = log t ++ (currs ≫= batch_events) ∧
    currs = [[0%Q]; [5%Q]] ∧
    ¬ (5 # 2 == column_sum 0 currs)%Q.
Proof.
  intros t. eexists _, [[0%Q]; [5%Q]].
  split_and!; [vm_compute; reflexivity | reflexivity | reflexivity |].
  vm_compute. discriminate.
Qed.

(** ** Instances *)

Lemma toy_encoder_contract (rate : nat) cfg n_nodes n_graphs supervised :
  encoder_contract (toy_trainer 0 rate cfg n_nodes n_graphs supervised).
Proof. intros p d idx b. by destruct supervised. Qed.

Lemma train_step_recorded_terms_sum_to_backward_witness :
  let t := toy_trainer 1 5 (toy_config 1 1 None "xavier") 2 2 true in
  encoder_contract t ∧
  ∃ t1 loc1 t2 loc2,
    foldM (train_batch None)
      (bump t, {| losses := initial_losses t 2; output := None |}) [[0]] = Ok (t1, loc1) ∧
    train_batch None (t1, loc1) [1] = Ok (t2, loc2) ∧
    ∃ loss_sum curr,
      log t2 = log t1 ++ [EvZeroGrad; EvLosses curr; EvBackward loss_sum; EvOptStep] ∧
      losses loc2 = zip_with Qplus (losses loc1) curr ∧
      (py_sum (zip_with Qminus (losses loc2) (losses loc1)) == loss_sum)%Q.
Proof.
  intros t.
  assert (encoder_contract t) as Hc by (intros p d idx b; reflexivity).
  split; [exact Hc|].
  eexists _, _, _, _. split; [vm_compute; reflexivity|]. split; [vm_compute; reflexivity|].
  apply (train_step_recorded_terms_sum_to_backward t None [[0]; [1]] 2 [[0]] [1] []);
    [exact Hc | reflexivity | reflexivity | reflexivity
    | vm_compute; reflexivity | vm_compute; reflexivity].
Defined.

Lemma train_step_one_update_per_batch_witness :
  let t := toy_trainer 1 5 (toy_config 1 1 None "xavier") 2 2 true in
  ∃ t' out ls,
    _train_step t None = Ok (t', out, ls) ∧
    ∃ int_splits currs evs,
      torch_split (@stateful_sampler_step (toy 1 5) (draws t) (length (index t)) true)
        (batch_size (params t)) = Ok int_splits ∧
      Forall2 (λ b curr, ∃ p d, curr_losses t None (model_call p d None b) b = Ok curr)
        (step_batches int_splits) currs ∧
      log t' = log t ++ evs ∧
      evs = currs ≫= (λ curr,
              [EvZeroGrad; EvLosses curr; EvBackward (py_sum curr); EvOptStep]) ∧
      n_updates evs = length (step_batches int_splits) ∧
      n_zero_grads evs = length (step_batches int_splits) ∧
      n_backwards evs = length (step_batches int_splits).
Proof.
  intros t. eexists _, _, _. split; [vm_compute; reflexivity|].
  eapply (train_step_one_update_per_batch t None). vm_compute. reflexivity.
Defined.

Lemma sampled_epoch_recon_slots_partition_witness :
  let t := toy_trainer 0 5 (toy_config 1 1 (Some 2) "xavier") 1 5 false in
  sampling t = true ∧
  @np_random_permutation (toy 0 5) (draws t) (length (adj t)) ≡ₚ seq 0 (length (adj t)) ∧
  ∃ t' epoch_losses,
    train_epoch t = Ok (t', epoch_losses) ∧
    1 ≤ sample_size_val t ≤ length (adj t) ∧
    ∃ idx_split evs,
      array_split (@np_random_permutation (toy 0 5) (draws t) (length (adj t)))
        (length (adj t) / sample_size_val t) = Ok idx_split ∧
      log t' = log t ++ evs ∧
      recon_slots evs = mjoin idx_split ∧
      recon_slots evs ≡ₚ seq 0 (length (adj t)) ∧
      NoDup (recon_slots evs) ∧
      (∀ i, i ∈ recon_slots evs ↔ i < length (adj t)).
Proof.
  intros t. split; [reflexivity|]. split; [reflexivity|].
  eexists _, _. split; [vm_compute; reflexivity|].
  eapply (sampled_epoch_recon_slots_partition t); [reflexivity | reflexivity |].
  vm_compute. reflexivity.
Defined.

Lemma epoch_accumulator_entries_witness :
  let t := toy_trainer 1 5 (toy_config 1 1 None "xavier") 2 2 true in
  encoder_contract t ∧ labels_paired t ∧
  ∃ t' epoch_losses,
    train_epoch t = Ok (t', epoch_losses) ∧
    length (epoch_accumulator t) = length (adj t) + n_labels t ∧
    (∀ i x, epoch_accumulator t !! i = Some x → x = 0%Q) ∧
    length epoch_losses = length (adj t) + n_labels t ∧
    (sampling t = false →
     ∃ currs,
       log t' = log t ++ (currs ≫= batch_events) ∧
       ∀ i x, epoch_losses !! i = Some x →
         (x == column_sum i currs
               / (Qnat (length (index t)) / Qnat (batch_size (params t))))%Q) ∧
    (sampling t = true → n_labels t = 0 →
     ∃ passes,
       array_split (@np_random_permutation (toy 1 5) (draws t) (length (adj t)))
         (length (adj t) / sample_size_val t) = Ok passes.*1 ∧
       log t' = log t ++ (passes ≫= pass_events) ∧
       ∀ i x, epoch_losses !! i = Some x → (x == sampled_slot_sum i passes)%Q).
Proof.
  intros t.
  assert (encoder_contract t) as Hc by (intros p d idx b; reflexivity).
  split; [exact Hc|]. split; [reflexivity|].
  eexists _, _. split; [vm_compute; reflexivity|].
  apply (epoch_accumulator_entries t); [exact Hc | reflexivity |].
  vm_compute. reflexivity.
Defined.

Lemma scenario_three_graphs_two_epochs_witness :
  let t := toy_trainer 0 5 (toy_config 2 10 None "xavier") 10 3 false in
  length (adj t) = 3 ∧ length (index t) = 10 ∧ labels t = None ∧
  sample_size (params t) = None ∧ epochs (params t) = 2 ∧
  batch_size (params t) = 10 ∧
  ∃ t' tl best,
    train t = Ok t' ∧
    trained t' = Some (tl, Some best) ∧
    length tl = 2 ∧
    Forall (λ epoch_losses, length epoch_losses = 3) tl ∧
    (bs_epoch best = 1 ∨ bs_epoch best = 2).
Proof.
  intros t. split_and!; [reflexivity..|].
  destruct (scenario_three_graphs_two_epochs t) as [Hafter Hcompletes];
    [reflexivity..|].
  destruct Hcompletes as [t' Ht']; [intros p d idx b; reflexivity | reflexivity |].
  destruct (Hafter t' Ht') as (tl & best & H).
  exists t', tl, best. split; [exact Ht' | exact H].
Defined.

Lemma unsupported_initialization_fails_fast_witness :
  let cfg := toy_config 1 1 None "normal" in
  let pre := @Build_Preprocessed (toy 0 5) [0] [tt] None None in
  initialization cfg ≠ "kaiming" ∧ initialization cfg ≠ "xavier" ∧
  (∃ m, m ∈ @modules (toy 0 5)
               (Bionic (length (pp_index pre)) (length (pp_adj pre))
                  (n_classes_of (pp_labels pre)))
        ∧ has_weight m = true) ∧
  _init_model cfg pre = Raise (ValueError (unsupported_msg (initialization cfg))) ∧
  Trainer_init cfg pre = Raise (ValueError (unsupported_msg (initialization cfg))) ∧
  (Trainer_init cfg pre ≫= train)
  = Raise (ValueError (unsupported_msg (initialization cfg))).
Proof.
  intros cfg pre.
  assert (initialization cfg ≠ "kaiming") as Hk by (apply String.eqb_neq; reflexivity).
  assert (initialization cfg ≠ "xavier") as Hx by (apply String.eqb_neq; reflexivity).
  assert (∃ m, m ∈ @modules (toy 0 5)
                      (Bionic (length (pp_index pre)) (length (pp_adj pre))
                         (n_classes_of (pp_labels pre)))
               ∧ has_weight m = true) as Hm.
  { exists true. split; [apply list_elem_of_further, list_elem_of_here | reflexivity]. }
  split; [exact Hk|]. split; [exact Hx|]. split; [exact Hm|].
  exact (unsupported_initialization_fails_fast cfg pre Hk Hx Hm).
Defined.

Lemma empty_labels_no_heads_no_reset_witness :
  let cfg := toy_config 1 1 None "xavier" in
  let pre := @Build_Preprocessed (toy 0 5) [0] [tt] (Some []) (Some []) in
  let t := toy_trainer 0 5 cfg 1 1 true in
  pp_labels pre = Some [] ∧ labels t = Some [] ∧
  n_classes_of (pp_labels pre) = None ∧
  forward t = Ok (emit t EvEval, embed (model t) <$> index t) ∧
  length (epoch_accumulator t) = length (adj t).
Proof.
  intros cfg pre t. split; [reflexivity|]. split; [reflexivity|].
  destruct (empty_labels_no_heads_no_reset cfg pre t eq_refl eq_refl)
    as (H1 & _ & _ & H2 & H3).
  split; [exact H1|]. split; [exact H2 | exact H3].
Defined.


(** * Further properties *)

(** ** Names of result files *)

Lemma contains_cons (sep c : Ascii.ascii) (s : string) :
  contains sep (String.String c s) = false ↔
  Ascii.eqb c sep = false ∧ contains sep s = false.
Proof.
  unfold contains. simpl. rewrite orb_false_iff, (Ascii.eqb_sym sep c). done.
Qed.

Lemma py_split_nonempty (sep : Ascii.ascii) (s : string) : py_split sep s ≠ [].
Proof.
  induction s as [|c s IH]; simpl; [done|].
  destruct (Ascii.eqb c sep); [done|]. by destruct (py_split sep s).
Qed.

(** A part without separator in front of a string joins the first field. *)
Lemma py_split_app_prefix (sep : Ascii.ascii) (a s field : string) (fields : list string) :
  contains sep a = false → py_split sep s = field :: fields →
  py_split sep (String.append a s) = String.append a field :: fields.
Proof.
  intros Ha Hs. induction a as [|c a IH]; simpl; [done|].
  apply contains_cons in Ha as [Hc Ha]. rewrite Hc, (IH Ha). done.
Qed.

(** A part without separator, then the separator: the part is a field. *)
Lemma py_split_app_sep (sep : Ascii.ascii) (a s : string) :
  contains sep a = false →
  py_split sep (String.append a (String.String sep s)) = a :: py_split sep s.
Proof.
  intros Ha. induction a as [|c a IH]; simpl.
  - by rewrite Ascii.eqb_refl.
  - apply contains_cons in Ha as [Hc Ha]. rewrite Hc, (IH Ha). done.
Qed.

Lemma py_slice_from_app (a s : string) :
  py_slice_from (String.length a) (String.append a s) = s.
Proof. induction a as [|c a IH]; simpl; [by destruct s|done]. Qed.

Lemma count_char_cons (sep c : Ascii.ascii) (s : string) :
  count_char sep (String.String c s)
  = (if Ascii.eqb c sep then 1 else 0) + count_char sep s.
Proof.
  unfold count_char. simpl. rewrite (Ascii.eqb_sym sep c).
  by destruct (Ascii.eqb c sep).
Qed.

(** One field more than there are separators. *)
Lemma length_py_split (sep : Ascii.ascii) (s : string) :
  length (py_split sep s) = S (count_char sep s).
Proof.
  induction s as [|c s IH]; [done|]. rewrite count_char_cons. simpl.
  destruct (Ascii.eqb c sep); simpl; [by rewrite IH|].
  pose proof (py_split_nonempty sep s).
  destruct (py_split sep s) as [|f fs]; [done|]. simpl in *. lia.
Qed.

Lemma append_char (c : Ascii.ascii) (s : string) :
  String.String c String.EmptyString +:+ s = String.String c s.
Proof. reflexivity. Qed.

#[local] Arguments py_slice_from : simpl never.

(** X3. A file name whose underscore-separated fields 1 to 7 are a tag of
    1, 2, 1, 1, 1, 3 and 4 characters followed by a value, the last value
    ending at the first dot, is cut into exactly its seven values; whatever
    precedes the first underscore and whatever follows the dot is ignored. *)
Theorem parse_file_name_round_trip
    (p t1 v1 t2 v2 t3 v3 t4 v4 t5 v5 t6 v6 t7 v7 ext : string) :
  contains "_" p = false →
  String.length t1 = 1 → contains "_" (t1 +:+ v1) = false →
  String.length t2 = 2 → contains "_" (t2 +:+ v2) = false →
  String.length t3 = 1 → contains "_" (t3 +:+ v3) = false →
  String.length t4 = 1 → contains "_" (t4 +:+ v4) = false →
  String.length t5 = 1 → contains "_" (t5 +:+ v5) = false →
  String.length t6 = 3 → contains "_" (t6 +:+ v6) = false →
  String.length t7 = 4 → contains "_" t7 = false → contains "_" v7 = false →
  contains "." v7 = false →
  parse_file_name
    (p +:+ "_" +:+ (t1 +:+ v1) +:+ "_" +:+ (t2 +:+ v2) +:+ "_" +:+ (t3 +:+ v3)
       +:+ "_" +:+ (t4 +:+ v4) +:+ "_" +:+ (t5 +:+ v5) +:+ "_" +:+ (t6 +:+ v6)
       +:+ "_" +:+ t7 +:+ v7 +:+ "." +:+ ext)
  = Ok {| f_epochs := v1; f_learning_rate := v2; f_gat_dim := v3;
          f_gat_heads := v4; f_gat_layers := v5; f_lambda := v6;
          f_folder := v7 |}.
Proof.
  intros Hp L1 H1 L2 H2 L3 H3 L4 H4 L5 H5 L6 H6 L7 H7 Hv7 Hdot.
  rewrite !append_char.
  destruct (py_split "_" ext) as [|e es] eqn:Hext; [by apply py_split_nonempty in Hext|].
  assert (py_split "_" (t7 +:+ v7 +:+ String.String "." ext)
          = (t7 +:+ v7 +:+ String.String "." e) :: es) as Hlast.
  { apply py_split_app_prefix; [done|]. apply py_split_app_prefix; [done|].
    simpl. by rewrite Hext. }
  unfold parse_file_name.
  rewrite !py_split_app_sep, Hlast by done. simpl.
  rewrite <- L7 at 1. rewrite py_slice_from_app, py_split_app_sep by done. simpl.
  f_equal. f_equal.
  - rewrite <- L1. apply py_slice_from_app.
  - rewrite <- L2. apply py_slice_from_app.
  - rewrite <- L3. apply py_slice_from_app.
  - rewrite <- L4. apply py_slice_from_app.
  - rewrite <- L5. apply py_slice_from_app.
  - rewrite <- L6. apply py_slice_from_app.
Qed.

(** X4. Cutting a file name raises [IndexError] exactly when the name, with
    its directory part, has fewer than seven underscores; with seven or more
    it yields seven strings (which [float] may still reject). *)
Theorem parse_file_name_fails_iff (file : string) :
  (parse_file_name file = Raise IndexError ↔ count_char "_" file < 7) ∧
  ((∃ fields, parse_file_name file = Ok fields) ↔ 7 ≤ count_char "_" file).
Proof.
  pose proof (length_py_split "_" file) as Hlen.
  unfold parse_file_name.
  destruct (py_split "_" file) as [|f0 [|f1 [|f2 [|f3 [|f4 [|f5 [|f6 [|f7 fs]]]]]]]];
    simpl in Hlen; simpl.
  1-8: split; split; try lia; try done; by intros [? ?].
  pose proof (py_split_nonempty "." (py_slice_from 4 f7)) as Hne.
  destruct (py_split "." (py_slice_from 4 f7)) as [|g gs]; [done|]. simpl.
  split; split; try lia; try done. eauto.
Qed.

(** ** Loader configuration *)

(** X5. The training loaders sample 30 neighbours at the first layer and 5
    fewer at each further layer, never fewer than 5: the fan-outs lie between
    5 and 30, never increase with depth, and are 5 from the sixth layer on. *)
Theorem train_loader_sizes_bounds (n_layers : nat) :
  length (train_loader_sizes n_layers) = n_layers ∧
  ∀ i s, train_loader_sizes n_layers !! i = Some s →
    (5 ≤ s ≤ 30)%Z ∧
    (i < 5 → s = (30 - 5 * Z.of_nat i)%Z) ∧
    (5 ≤ i → s = 5%Z) ∧
    ∀ j s', i ≤ j → train_loader_sizes n_layers !! j = Some s' → (s' ≤ s)%Z.
Proof.
  unfold train_loader_sizes. split; [by rewrite length_fmap, length_seq|].
  intros i s Hs. rewrite list_lookup_fmap in Hs.
  destruct (seq 0 n_layers !! i) as [k|] eqn:Hk; [|done].
  apply lookup_seq in Hk as [-> _]. simpl in Hs. injection Hs as <-.
  split_and!; [lia..|].
  intros j s' Hij Hs'. rewrite list_lookup_fmap in Hs'.
  destruct (seq 0 n_layers !! j) as [k|] eqn:Hk; [|done].
  apply lookup_seq in Hk as [-> _]. simpl in Hs'. injection Hs' as <-. lia.
Qed.

(** ** The batches of a step *)

Lemma ceil_div_step (n size : nat) :
  0 < size → 0 < n → S ((n - size + size - 1) / size) = (n + size - 1) / size.
Proof.
  intros Hsize Hn. destruct (decide (size ≤ n)) as [Hle|Hgt].
  - replace (n + size - 1) with (n - size + size - 1 + 1 * size) by lia.
    rewrite Nat.div_add by lia. lia.
  - replace (n - size + size - 1) with (size - 1) by lia.
    rewrite (Nat.div_small (size - 1)) by lia.
    apply Nat.div_unique with (n - 1); lia.
Qed.

Lemma chunks_cons {A : Type} (fuel size : nat) (x : A) (l : list A) :
  chunks (S fuel) size (x :: l)
  = take size (x :: l) :: chunks fuel size (drop size (x :: l)).
Proof. reflexivity. Qed.

Lemma chunks_spec {A : Type} (size : nat) : ∀ fuel (l : list A),
  0 < size → length l ≤ fuel →
  mjoin (chunks fuel size l) = l ∧
  length (chunks fuel size l) = (length l + size - 1) / size ∧
  ∀ i c, chunks fuel size l !! i = Some c →
    0 < length c ≤ size ∧ (S i < length (chunks fuel size l) → length c = size).
Proof.
  induction fuel as [|fuel IH]; intros l Hsize Hlen.
  - destruct l; [|simpl in Hlen; lia]. simpl.
    split_and!; [done| |by intros [|?]].
    rewrite Nat.div_small; lia.
  - destruct l as [|x l].
    { simpl. split_and!; [done| |by intros [|?]]. rewrite Nat.div_small; lia. }
    rewrite chunks_cons.
    assert (0 < length (x :: l)) as Hpos by (simpl; lia).
    destruct (IH (drop size (x :: l)) Hsize) as (Hjoin & Hcount & Hsizes).
    { rewrite length_drop. lia. }
    rewrite length_drop in Hcount.
    split_and!.
    + change (take size (x :: l) ++ mjoin (chunks fuel size (drop size (x :: l))) = x :: l).
      rewrite Hjoin. apply take_drop.
    + rewrite length_cons, Hcount. by apply ceil_div_step.
    + intros [|i] c Hc.
      * injection Hc as <-. rewrite length_take. split; [lia|].
        rewrite length_cons, Hcount. intros Hmore.
        destruct (decide (size ≤ length (x :: l))) as [Hle|Hgt]; [lia|].
        replace (length (x :: l) - size + size - 1) with (size - 1) in Hmore by lia.
        rewrite Nat.div_small in Hmore; lia.
      * change (chunks fuel size (drop size (x :: l)) !! i = Some c) in Hc.
        destruct (Hsizes i c Hc) as [Hb Hfull]. split; [done|].
        rewrite length_cons. intros Hmore. apply Hfull. lia.
Qed.

Lemma torch_split_spec {A : Type} (l : list A) (split_size : nat) :
  0 < split_size →
  ∃ cs,
    torch_split l split_size = Ok cs ∧
    mjoin cs = l ∧
    length cs = n_batches (length l) split_size ∧
    ∀ i c, cs !! i = Some c →
      length c ≤ split_size ∧ (S i < length cs → length c = split_size).
Proof.
  intros Hsize. destruct split_size as [|n]; [lia|].
  destruct l as [|x l].
  - exists [[]]. simpl. split_and!; try done.
    intros [|[|?]] c Hc; simpl in Hc; try done. injection Hc as <-. simpl. split; lia.
  - destruct (chunks_spec (S n) (length (x :: l)) (x :: l) Hsize (le_n _))
      as (Hjoin & Hcount & Hsizes).
    exists (chunks (length (x :: l)) (S n) (x :: l)).
    split_and!; [done|done| |].
    + rewrite Hcount. unfold n_batches. done.
    + intros i c Hc. destruct (Hsizes i c Hc) as [[_ Hle] Hfull]. done.
Qed.

Section MoreFacts.
Context {B : Backend}.

(** X6. A completed step runs over the sampler's ordering cut into batches
    of [batch_size] nodes (the last one possibly shorter): when the ordering
    is a permutation of the nodes, every node is in exactly one batch, and
    the step makes one optimizer update per batch, ceil(N / batch_size) in
    all (one, over an empty batch, when there is no node). *)
Theorem train_step_visits_every_node_once (t : Trainer) idx t' out ls :
  _train_step t idx = Ok (t', out, ls) →
  0 < batch_size (params t) →
  stateful_sampler_step (draws t) (length (index t)) true ≡ₚ seq 0 (length (index t)) →
  ∃ batches evs,
    torch_split (stateful_sampler_step (draws t) (length (index t)) true)
      (batch_size (params t)) = Ok batches ∧
    mjoin (step_batches batches) ≡ₚ seq 0 (length (index t)) ∧
    NoDup (mjoin (step_batches batches)) ∧
    (∀ i b, step_batches batches !! i = Some b →
       length b ≤ batch_size (params t) ∧
       (S i < length batches → length b = batch_size (params t))) ∧
    log t' = log t ++ evs ∧
    n_updates evs = length batches ∧
    length batches = n_batches (length (index t)) (batch_size (params t)).
Proof.
  intros H Hbs Hperm.
  apply train_step_spec in H as (int_splits & n & currs & Hs & _ & Hall & Hlog & _).
  destruct (torch_split_spec (stateful_sampler_step (draws t) (length (index t)) true)
              (batch_size (params t)) Hbs) as (cs & Hcs & Hjoin & Hcount & Hsizes).
  rewrite Hs in Hcs. injection Hcs as <-.
  exists int_splits, (currs ≫= batch_events). unfold step_batches in *.
  assert (mjoin int_splits ≡ₚ seq 0 (length (index t))) as Hp by (by rewrite Hjoin).
  split_and!; try done.
  - rewrite Hp. apply NoDup_seq.
  - destruct (batch_events_counts currs) as (-> & _).
    symmetry. by eapply Forall2_length.
  - rewrite Hcount. f_equal. apply Permutation_length in Hperm.
    by rewrite Hperm, length_seq.
Qed.

(** *** Counting the optimizer calls of a run *)

Lemma n_updates_app (evs evs' : list event) :
  n_updates (evs ++ evs') = n_updates evs + n_updates evs'.
Proof. unfold n_updates. by rewrite omap_app, length_app. Qed.

Lemma n_zero_grads_app (evs evs' : list event) :
  n_zero_grads (evs ++ evs') = n_zero_grads evs + n_zero_grads evs'.
Proof. unfold n_zero_grads. by rewrite omap_app, length_app. Qed.

Lemma n_backwards_app (evs evs' : list event) :
  n_backwards (evs ++ evs') = n_backwards evs + n_backwards evs'.
Proof. unfold n_backwards. by rewrite omap_app, length_app. Qed.

Lemma accum_events_counts {A : Type} (kind : slot_kind) (f : A → nat) (ws : list A) :
  n_updates ((λ w, EvAccum kind (f w)) <$> ws) = 0 ∧
  n_zero_grads ((λ w, EvAccum kind (f w)) <$> ws) = 0 ∧
  n_backwards ((λ w, EvAccum kind (f w)) <$> ws) = 0.
Proof.
  unfold n_updates, n_zero_grads, n_backwards.
  induction ws as [|w ws (IH1 & IH2 & IH3)]; [done|].
  rewrite fmap_cons. simpl. done.
Qed.

(** The events [evs] hold [k] updates, [k] clearings and [k] backward
    calls. *)
Lemma counts_app (evs evs' : list event) (k k' : nat) :
  n_updates evs = k ∧ n_zero_grads evs = k ∧ n_backwards evs = k →
  n_updates evs' = k' ∧ n_zero_grads evs' = k' ∧ n_backwards evs' = k' →
  n_updates (evs ++ evs') = k + k' ∧ n_zero_grads (evs ++ evs') = k + k' ∧
  n_backwards (evs ++ evs') = k + k'.
Proof.
  intros (<- & H2 & H3) (<- & H2' & H3').
  rewrite n_updates_app, n_zero_grads_app, n_backwards_app. lia.
Qed.

Lemma train_step_counts (t : Trainer) idx t' out ls :
  0 < batch_size (params t) →
  (∀ d, length (stateful_sampler_step d (length (index t)) true) = length (index t)) →
  _train_step t idx = Ok (t', out, ls) →
  ∃ evs,
    log t' = log t ++ evs ∧ same_data t t' ∧
    n_updates evs = n_batches (length (index t)) (batch_size (params t)) ∧
    n_zero_grads evs = n_batches (length (index t)) (batch_size (params t)) ∧
    n_backwards evs = n_batches (length (index t)) (batch_size (params t)).
Proof.
  intros Hbs Hlen H.
  apply train_step_spec in H as (int_splits & n & currs & Hs & _ & Hall & Hlog & _ & Hsd & _).
  destruct (torch_split_spec (stateful_sampler_step (draws t) (length (index t)) true)
              (batch_size (params t)) Hbs) as (cs & Hcs & _ & Hcount & _).
  rewrite Hs in Hcs. injection Hcs as <-.
  exists (currs ≫= batch_events). split; [done|]. split; [done|].
  destruct (batch_events_counts currs) as (-> & -> & ->).
  rewrite <- (Forall2_length _ _ _ Hall). unfold step_batches.
  by rewrite Hcount, Hlen.
Qed.

Lemma train_pass_counts (t : Trainer) el rand_idxs t' el' :
  0 < batch_size (params t) →
  (∀ d, length (stateful_sampler_step d (length (index t)) true) = length (index t)) →
  train_pass (t, el) rand_idxs = Ok (t', el') →
  ∃ evs,
    log t' = log t ++ evs ∧ same_data t t' ∧
    n_updates evs = n_batches (length (index t)) (batch_size (params t)) ∧
    n_zero_grads evs = n_batches (length (index t)) (batch_size (params t)) ∧
    n_backwards evs = n_batches (length (index t)) (batch_size (params t)).
Proof.
  intros Hbs Hlen H. unfold train_pass in H.
  inv_bind H. destruct x as [[t1 out] ls]. inv_bind H. destruct x as [t2 el2].
  apply train_step_counts in E as (evs & Hlog & Hsd & Hcounts); [|done..].
  apply add_recon_spec in E0 as (Hlog1 & Hsd1 & _).
  apply set_cls_spec in H as (Hlog2 & Hsd2 & _).
  eexists. split_and!.
  - rewrite Hlog2, Hlog1, Hlog, <- !app_assoc. reflexivity.
  - eauto using same_data_trans.
  - rewrite <- (Nat.add_0_r (n_batches _ _)).
    apply (counts_app _ _ _ 0); [done|].
    apply (counts_app _ _ 0 0).
    + apply (accum_events_counts Recon id).
    + apply (accum_events_counts Cls (λ w : nat * Q, length rand_idxs + w.1)).
  - rewrite <- (Nat.add_0_r (n_batches _ _)).
    apply (counts_app _ _ _ 0); [done|].
    apply (counts_app _ _ 0 0).
    + apply (accum_events_counts Recon id).
    + apply (accum_events_counts Cls (λ w : nat * Q, length rand_idxs + w.1)).
  - rewrite <- (Nat.add_0_r (n_batches _ _)).
    apply (counts_app _ _ _ 0); [done|].
    apply (counts_app _ _ 0 0).
    + apply (accum_events_counts Recon id).
    + apply (accum_events_counts Cls (λ w : nat * Q, length rand_idxs + w.1)).
Qed.

Lemma train_passes_counts groups : ∀ (t : Trainer) el t' el',
  0 < batch_size (params t) →
  (∀ d, length (stateful_sampler_step d (length (index t)) true) = length (index t)) →
  foldM train_pass (t, el) groups = Ok (t', el') →
  ∃ evs,
    log t' = log t ++ evs ∧ same_data t t' ∧
    n_updates evs
      = length groups * n_batches (length (index t)) (batch_size (params t)) ∧
    n_zero_grads evs
      = length groups * n_batches (length (index t)) (batch_size (params t)) ∧
    n_backwards evs
      = length groups * n_batches (length (index t)) (batch_size (params t)).
Proof.
  induction groups as [|g groups IH]; intros t el t' el' Hbs Hlen H.
  - simpl in H. inversion H; subst. exists []. rewrite app_nil_r.
    split_and!; auto using same_data_refl.
  - rewrite foldM_cons in H. inv_bind H. destruct x as [t1 el1].
    apply train_pass_counts in E as (evs & Hlog & Hsd & Hcounts); [|done..].
    pose proof Hsd as (Hp & Hi & _).
    apply IH in H as (evs' & Hlog' & Hsd' & Hcounts'); [|by rewrite Hp|by rewrite Hi].
    rewrite Hp, Hi in Hcounts'.
    exists (evs ++ evs'). split_and!.
    + by rewrite Hlog', Hlog, <- app_assoc.
    + eauto using same_data_trans.
    + simpl. by apply counts_app.
    + simpl. by apply (counts_app evs evs').
    + simpl. by apply (counts_app evs evs').
Qed.

Lemma train_epoch_counts (t t' : Trainer) el :
  0 < batch_size (params t) →
  (∀ d, length (stateful_sampler_step d (length (index t)) true) = length (index t)) →
  train_epoch t = Ok (t', el) →
  ∃ evs,
    log t' = log t ++ evs ∧
    n_updates evs
      = passes_per_epoch t * n_batches (length (index t)) (batch_size (params t)) ∧
    n_zero_grads evs
      = passes_per_epoch t * n_batches (length (index t)) (batch_size (params t)) ∧
    n_backwards evs
      = passes_per_epoch t * n_batches (length (index t)) (batch_size (params t)).
Proof.
  intros Hbs Hlen H. unfold train_epoch, passes_per_epoch in *.
  destruct (sampling t) eqn:Hs.
  - inv_bind H. rename x into idx_split.
    apply array_split_concat in E as [_ Hgroups].
    apply train_passes_counts in H as (evs & Hlog & _ & Hcounts); [|done..].
    change (sample_size_val (bump t)) with (sample_size_val t) in Hgroups.
    change (adj (bump t)) with (adj t) in Hgroups.
    exists evs. rewrite Hgroups in Hcounts. done.
  - inv_bind H. destruct x as [[t1 out] ls]. inv_bind H. inversion H; subst; clear H.
    apply train_step_counts in E as (evs & Hlog & _ & Hcounts); [|done..].
    exists evs. rewrite Nat.mul_1_l. done.
Qed.

Lemma passes_per_epoch_same_data (t t' : Trainer) :
  same_data t t' → passes_per_epoch t' = passes_per_epoch t.
Proof.
  intros (Hp & _ & Ha & _). unfold passes_per_epoch, sampling, sample_size_val.
  by rewrite Hp, Ha.
Qed.

Lemma train_loop_counts es : ∀ (t : Trainer) loc t' loc',
  0 < batch_size (params t) →
  (∀ d, length (stateful_sampler_step d (length (index t)) true) = length (index t)) →
  foldM epoch_body (t, loc) es = Ok (t', loc') →
  ∃ evs,
    log t' = log t ++ evs ∧
    n_updates evs = length es * (passes_per_epoch t
      * n_batches (length (index t)) (batch_size (params t))) ∧
    n_zero_grads evs = length es * (passes_per_epoch t
      * n_batches (length (index t)) (batch_size (params t))) ∧
    n_backwards evs = length es * (passes_per_epoch t
      * n_batches (length (index t)) (batch_size (params t))).
Proof.
  induction es as [|e es IH]; intros t loc t' loc' Hbs Hlen H.
  - simpl in H. inversion H; subst. exists []. by rewrite app_nil_r.
  - rewrite foldM_cons in H. inv_bind H. destruct x as [t1 loc1].
    apply epoch_body_spec in E as (el & Hep & _).
    pose proof (train_epoch_same_data _ _ _ Hep) as Hsd.
    apply train_epoch_counts in Hep as (evs & Hlog & Hcounts); [|done..].
    pose proof Hsd as (Hp & Hi & _).
    apply IH in H as (evs' & Hlog' & Hcounts'); [|by rewrite Hp|by rewrite Hi].
    rewrite Hp, Hi, (passes_per_epoch_same_data t t1) in Hcounts' by done.
    exists (evs ++ evs'). split_and!.
    + by rewrite Hlog', Hlog, <- app_assoc.
    + simpl. by apply counts_app.
    + simpl. by apply (counts_app evs evs').
    + simpl. by apply (counts_app evs evs').
Qed.

(** X7. A completed training run makes exactly [epochs * passes * batches]
    optimizer updates, and as many gradient clearings and backward calls,
    where [passes] is 1 without sub-sampling and [floor(G / sample_size)]
    with it, and [batches] is ceil(N / batch_size), or 1 when there is no
    node. *)
Theorem train_optimizer_update_count (t t' : Trainer) :
  0 < batch_size (params t) →
  (∀ d, length (stateful_sampler_step d (length (index t)) true) = length (index t)) →
  train t = Ok t' →
  ∃ evs,
    log t' = log t ++ evs ∧
    n_updates evs = epochs (params t) * (passes_per_epoch t
      * n_batches (length (index t)) (batch_size (params t))) ∧
    n_zero_grads evs = n_updates evs ∧
    n_backwards evs = n_updates evs.
Proof.
  intros Hbs Hlen H. unfold train in H. inv_bind H. destruct x as [t1 loc].
  inversion H; subst; clear H.
  apply train_loop_counts in E as (evs & Hlog & H1 & H2 & H3); [|done..].
  rewrite length_seq in H1, H2, H3.
  exists evs. simpl. split_and!; [done|done|lia|lia].
Qed.

(** ** Failure modes of [train] and [forward] *)

Lemma epoch_body_eq (t : Trainer) loc epoch :
  epoch_body (t, loc) epoch
  = ('(t1, epoch_losses) ← train_epoch t;
     _ ← tensorboard_scalars t1;
     let '(best_loss, best_state) :=
       store_best t1 epoch epoch_losses (best_loss loc, best_state loc) in
     Ok (t1, {| train_loss := train_loss loc ++ [epoch_losses];
                best_loss := best_loss; best_state := best_state |})).
Proof. reflexivity. Qed.

Lemma train_first_epoch (t : Trainer) :
  0 < epochs (params t) →
  ∀ e, train_epoch t = Raise e → train t = Raise e.
Proof.
  intros Hpos e He. unfold train.
  destruct (epochs (params t)) as [|n]; [lia|].
  change (seq 0 (S n)) with (0 :: seq 1 n). rewrite foldM_cons.
  by rewrite epoch_body_eq, He.
Qed.

(** X8. With tensorboard logging on and at most ten graphs, [train] never
    completes a run of one or more epochs: as soon as the first epoch's
    batches are done, naming the scalars after [self.names] raises
    [AttributeError]. *)
Theorem train_with_tensorboard_fails (t : Trainer) :
  use_tensorboard (params t) = true → length (adj t) ≤ 10 → 0 < epochs (params t) →
  (∀ t', train t ≠ Ok t') ∧
  (∀ t1 el, train_epoch t = Ok (t1, el) → train t = Raise AttributeError).
Proof.
  intros Htb Hg Hpos.
  assert (∀ t1 el, train_epoch t = Ok (t1, el) → train t = Raise AttributeError) as Hfail.
  { intros t1 el He. unfold train.
    destruct (epochs (params t)) as [|n]; [lia|].
    change (seq 0 (S n)) with (0 :: seq 1 n). rewrite foldM_cons.
    rewrite epoch_body_eq, He. simpl.
    apply train_epoch_same_data in He as (Hp & _ & Ha & _).
    unfold tensorboard_scalars. rewrite Hp, Ha, Htb.
    apply Nat.leb_le in Hg. by rewrite Hg. }
  split; [|done]. intros t' Ht'.
  destruct (train_epoch t) as [[t1 el]|e] eqn:He.
  - rewrite (Hfail t1 el eq_refl) in Ht'. discriminate.
  - rewrite (train_first_epoch t Hpos e He) in Ht'. discriminate.
Qed.

(** X9. With [epochs = 0], [train] completes at once with an empty
    [train_loss] and [best_state] left at [None], touching neither the model
    nor the optimizer; a [forward] after it raises [TypeError] when no labels
    are configured, and runs on the untrained parameters when labels are. *)
Theorem train_zero_epochs_then_forward (t : Trainer) :
  epochs (params t) = 0 →
  train t = Ok (with_trained t [] None) ∧
  (labels t = None → forward (with_trained t [] None) = Raise TypeError) ∧
  (labels t ≠ None →
   forward (with_trained t [] None)
   = Ok (emit (with_trained t [] None) EvEval, embed (model t) <$> index t)).
Proof.
  intros Hep. unfold train. rewrite Hep. simpl. split; [done|].
  unfold forward, forward_begin, best_state_dict. simpl.
  destruct (labels t); split; done.
Qed.

(** X10. On a freshly constructed trainer, [forward] raises [AttributeError]
    when no labels are configured ([self.best_state] does not exist yet), and
    runs without any training when labels are configured. *)
Theorem forward_before_train (cfg : Config) (pre : Preprocessed) (t : Trainer) :
  Trainer_init cfg pre = Ok t →
  (pp_labels pre = None → forward t = Raise AttributeError) ∧
  (pp_labels pre ≠ None →
   forward t = Ok (emit t EvEval, embed (model t) <$> index t)).
Proof.
  unfold Trainer_init. intros H. inv_bind H. inversion H; subst; clear H.
  unfold forward, forward_begin, best_state_dict. simpl.
  destruct (pp_labels pre); split; done.
Qed.

(** X11. With sub-sampling on and fewer graphs than [sample_size], a training
    run of one or more epochs raises [ValueError] in its first epoch, before
    any batch is processed. *)
Theorem train_raises_when_sample_size_exceeds_graphs (t : Trainer) :
  sampling t = true → length (adj t) < sample_size_val t → 0 < epochs (params t) →
  train t = Raise (ValueError "number sections must be larger than 0.").
Proof.
  intros Hs Hlt Hpos. apply train_first_epoch; [done|].
  by apply sampled_epoch_too_few_graphs.
Qed.

(** ** Construction *)

(** X12. Whenever constructing a trainer succeeds, the initialization scheme
    is "kaiming" or "xavier" or no module of the model has a [weight], and the
    pretrained checkpoint, if one was asked for, could be read; the trainer
    carries the configuration and the preprocessed inputs unchanged, a model
    built for [len(index)] nodes and [len(adj)] graphs, with classification
    heads only for a non-empty list of labels, and no training results. *)
Theorem trainer_init_success_conditions (cfg : Config) (pre : Preprocessed) (t : Trainer) :
  Trainer_init cfg pre = Ok t →
  (initialization cfg = "kaiming" ∨ initialization cfg = "xavier" ∨
   Forall (λ m, has_weight m = false)
     (modules (Bionic (length (pp_index pre)) (length (pp_adj pre))
                 (n_classes_of (pp_labels pre))))) ∧
  (∃ initialized,
     foldM (_init_model_weights cfg)
       (Bionic (length (pp_index pre)) (length (pp_adj pre))
          (n_classes_of (pp_labels pre)))
       (modules (Bionic (length (pp_index pre)) (length (pp_adj pre))
                   (n_classes_of (pp_labels pre)))) = Ok initialized ∧
     if load_pretrained_model cfg
     then ∃ sd, torch_load = Ok sd ∧ load_state_dict sd initialized = Ok (model t)
     else model t = initialized) ∧
  params t = cfg ∧ index t = pp_index pre ∧ adj t = pp_adj pre ∧
  labels t = pp_labels pre ∧ label_masks t = pp_label_masks pre ∧
  trained t = None ∧ log t = [].
Proof.
  intros Ht. split.
  { destruct (decide (initialization cfg = "kaiming")) as [?|Hk]; [by left|].
    destruct (decide (initialization cfg = "xavier")) as [?|Hx]; [by right; left|].
    right; right. apply Forall_forall. intros m Hm.
    destruct (has_weight m) eqn:Hw; [|done]. exfalso.
    unfold Trainer_init, _init_model in Ht.
    rewrite init_weights_unsupported in Ht by eauto. discriminate. }
  unfold Trainer_init in Ht. inv_bind Ht. injection Ht as <-. simpl.
  split; [|by split_and!].
  unfold _init_model in E. inv_bind E. rename x0 into initialized.
  exists initialized. split; [done|].
  destruct (load_pretrained_model cfg); [|by injection E].
  inv_bind E. eauto.
Qed.

(** ** The groups of a sub-sampled epoch *)

Lemma reshape_lengths {A : Type} (szs : list nat) : ∀ (l : list A),
  sum_list szs ≤ length l →
  Forall2 (λ sz part, length part = sz) szs (reshape szs l).
Proof.
  induction szs as [|sz szs IH]; intros l Hsum; simpl in *; constructor.
  - rewrite length_take. lia.
  - apply IH. rewrite length_drop. lia.
Qed.

Lemma section_sizes_cases (total n : nat) :
  Forall (λ sz, sz = total / n ∨ (sz = total / n + 1 ∧ 0 < total mod n))
    (section_sizes total n).
Proof.
  unfold section_sizes. apply Forall_app. split; [|by apply Forall_replicate; left].
  apply Forall_forall. intros sz [-> Hpos]%elem_of_replicate. right. lia.
Qed.

Lemma group_size_bounds (G S : nat) :
  1 ≤ S → S ≤ G →
  S ≤ G / (G / S) ∧ G / (G / S) ≤ 2 * S - 1 ∧
  (0 < G mod (G / S) → G / (G / S) + 1 ≤ 2 * S - 1) ∧
  (G mod S = 0 → G / (G / S) = S ∧ G mod (G / S) = 0).
Proof.
  intros HS HG.
  pose proof (Nat.div_mod_eq G S) as Hn.
  pose proof (Nat.mod_upper_bound G S ltac:(lia)) as Hr.
  assert (1 ≤ G / S) as Hn1.
  { apply Nat.div_le_lower_bound; lia. }
  set (n := G / S) in *.
  pose proof (Nat.div_mod_eq G n) as Hq.
  pose proof (Nat.mod_upper_bound G n ltac:(lia)) as Hrq.
  set (q := G / n) in *. set (r := G mod n) in *. set (r0 := G mod S) in *.
  split_and!.
  - destruct (decide (S ≤ q)); [done|]. assert (q + 1 ≤ S) by lia. nia.
  - destruct (decide (q ≤ 2 * S - 1)); [done|]. assert (2 * S ≤ q) by lia. nia.
  - intros Hpos. destruct (decide (q + 1 ≤ 2 * S - 1)); [done|].
    assert (2 * S - 1 ≤ q) by lia. nia.
  - intros H0. assert (G = S * n) as HGn by lia.
    assert (q = S) as Hqs.
    { destruct (decide (q = S)) as [|Hne]; [done|].
      destruct (decide (q < S)); [assert (q + 1 ≤ S) by lia; nia|].
      assert (S + 1 ≤ q) by lia. nia. }
    split; [done|]. nia.
Qed.

(** X13. With sub-sampling on and at least [sample_size] graphs, an epoch
    cuts the drawn permutation into [floor(G / sample_size)] groups of at
    least [sample_size] and at most [2 * sample_size - 1] graphs each, whose
    sizes differ by at most one; the groups have exactly [sample_size]
    graphs when [sample_size] divides [G]. *)
Theorem sampled_group_sizes (t : Trainer) :
  sampling t = true →
  length (np_random_permutation (draws t) (length (adj t))) = length (adj t) →
  sample_size_val t ≤ length (adj t) →
  ∃ idx_split,
    array_split (np_random_permutation (draws t) (length (adj t)))
      (length (adj t) / sample_size_val t) = Ok idx_split ∧
    length idx_split = length (adj t) / sample_size_val t ∧
    Forall (λ g, sample_size_val t ≤ length g ≤ 2 * sample_size_val t - 1) idx_split ∧
    (∀ g g', g ∈ idx_split → g' ∈ idx_split → length g ≤ length g' + 1) ∧
    (length (adj t) mod sample_size_val t = 0 →
     Forall (λ g, length g = sample_size_val t) idx_split).
Proof.
  intros Hs Hlen HG.
  pose proof (sampling_sample_size t Hs) as HS.
  set (G := length (adj t)) in *. set (S := sample_size_val t) in *.
  destruct (group_size_bounds G S ltac:(lia) HG) as (Hlo & Hhi & Hhi' & Hdiv).
  assert (1 ≤ G / S) as Hn1 by (apply Nat.div_le_lower_bound; lia).
  unfold array_split. destruct (G / S =? 0) eqn:Hz; [apply Nat.eqb_eq in Hz; lia|].
  eexists. split; [reflexivity|]. rewrite Hlen.
  pose proof (reshape_lengths (section_sizes G (G / S))
                (np_random_permutation (draws t) G)) as Hparts.
  rewrite sum_section_sizes, Hlen in Hparts by lia. specialize (Hparts (le_n _)).
  pose proof (section_sizes_cases G (G / S)) as Hcases.
  assert (Forall (λ g, length g = G / (G / S)
                       ∨ (length g = G / (G / S) + 1 ∧ 0 < G mod (G / S)))
            (reshape (section_sizes G (G / S)) (np_random_permutation (draws t) G)))
    as Hgroups.
  { clear -Hparts Hcases. induction Hparts as [|sz part szs parts Hsz _ IH]; [done|].
    inversion Hcases; subst. constructor; [done|]. by apply IH. }
  split_and!.
  - rewrite length_reshape. unfold section_sizes.
    rewrite length_app, !length_replicate.
    pose proof (Nat.mod_upper_bound G (G / S) ltac:(lia)). lia.
  - eapply Forall_impl; [exact Hgroups|]. simpl. intros g [->|[-> Hpos]]; [lia|].
    specialize (Hhi' Hpos). lia.
  - intros g g' Hg Hg'. rewrite Forall_forall in Hgroups.
    destruct (Hgroups g Hg) as [->|[-> _]], (Hgroups g' Hg') as [->|[-> _]]; lia.
  - intros Hmod. destruct (Hdiv Hmod) as [Hq Hr].
    eapply Forall_impl; [exact Hgroups|]. simpl. intros g [->|[_ Hpos]]; [done|lia].
Qed.

(** ** The best snapshot in the presence of zero totals *)

Lemma store_best_restart (t : Trainer) loc el bl bs :
  restart_invariant loc →
  Forall (λ el', (0 <= py_sum el')%Q) (train_loss loc) →
  store_best t (length (train_loss loc)) el (best_loss loc, best_state loc) = (bl, bs) →
  restart_invariant
    {| train_loss := train_loss loc ++ [el]; best_loss := bl; best_state := bs |}.
Proof.
  unfold restart_invariant, store_best. simpl. intros Hinv Hnn.
  set (tl := train_loss loc) in *.
  destruct (best_loss loc) as [bl0|], (best_state loc) as [b0|]; try done.
  - destruct Hinv as (-> & k & [Hstart Hnz] & i & el0 & Hki & Hi & Hloss & Hep & Hmin & Hfirst).
    pose proof (lookup_lt_Some _ _ _ Hi) as Hilt.
    destruct (truthy_Q (Some (bs_best_loss b0))) eqn:Htruthy.
    + (* the stored loss is not zero *)
      assert (¬ (bs_best_loss b0 == 0)%Q) as Hb0.
      { simpl in Htruthy. apply negb_true_iff, not_true_iff_false in Htruthy.
        by rewrite Qeq_bool_iff in Htruthy. }
      assert (0 < bs_best_loss b0)%Q as Hpos.
      { assert (0 <= bs_best_loss b0)%Q as Hle.
        { rewrite Hloss. eapply Forall_lookup_1 in Hnn; [exact Hnn|exact Hi]. }
        apply Qle_lteq in Hle as [?|Heq]; [done|]. exfalso. apply Hb0. by symmetry. }
      assert (restart_point (tl ++ [el]) k) as Hk'.
      { split.
        - destruct Hstart as [->|(el1 & Hk0 & Hel1 & Hz)]; [by left|].
          right. exists el1. split_and!; [done| |done].
          by apply lookup_app_l_Some.
        - intros j el' Hkj Hj Hlook. rewrite length_app in Hj. simpl in Hj.
          rewrite lookup_app_l in Hlook by lia.
          destruct (decide (S j < length tl)) as [Hlt|Hge]; [by eapply Hnz|].
          intros Hz. specialize (Hmin j el' Hkj Hlook). rewrite Hz in Hmin.
          by apply Qlt_not_le in Hpos. }
      unfold improves. rewrite Htruthy. simpl.
      destruct (Qlt_bool (py_sum el) (bs_best_loss b0)) eqn:Hlt;
        intros H; inversion H; subst; clear H; (split; [done|]); exists k; (split; [done|]).
      * apply Qlt_bool_true in Hlt.
        exists (length tl), el. simpl. split_and!; try done; [lia| | |].
        -- by rewrite lookup_app_r, Nat.sub_diag by lia.
        -- intros j el' Hkj Hj. apply lookup_app_Some in Hj as [Hj|[_ Hj]].
           ++ apply Qlt_le_weak. eapply Qlt_le_trans; [exact Hlt|]. by eapply Hmin.
           ++ apply list_lookup_singleton_Some in Hj as [_ ->]. apply Qle_refl.
        -- intros j el' Hkj Hlen Hj. rewrite lookup_app_l in Hj by done.
           eapply Qlt_le_trans; [exact Hlt|]. by eapply Hmin.
      * apply Qlt_bool_false in Hlt.
        exists i, el0. split_and!; try done.
        -- by apply lookup_app_l_Some.
        -- intros j el' Hkj Hj. apply lookup_app_Some in Hj as [Hj|[_ Hj]].
           ++ by eapply Hmin.
           ++ apply list_lookup_singleton_Some in Hj as [_ ->]. done.
        -- intros j el' Hkj Hlen Hj. rewrite lookup_app_l in Hj by lia.
           by eapply Hfirst.
    + (* the stored loss is zero: it is taken for no stored loss *)
      assert (bs_best_loss b0 == 0)%Q as Hz.
      { simpl in Htruthy. apply negb_false_iff in Htruthy. by apply Qeq_bool_iff. }
      assert (S i = length tl) as Hlast.
      { destruct (decide (S i < length tl)) as [Hlt|?]; [|lia].
        exfalso. apply (Hnz i el0 Hki Hlt Hi). by rewrite <- Hloss. }
      unfold improves. rewrite Htruthy. simpl.
      intros H; inversion H; subst; clear H. split; [done|].
      exists (length tl). split.
      * split.
        -- right. exists el0. split_and!; [lia| |by rewrite <- Hloss].
           apply lookup_app_l_Some. by replace (length tl - 1) with i by lia.
        -- intros j el' Hkj Hj. rewrite length_app in Hj. simpl in Hj. lia.
      * exists (length tl), el. simpl. split_and!; try done; [| |intros; lia].
        -- by rewrite lookup_app_r, Nat.sub_diag by lia.
        -- intros j el' Hkj Hj. apply lookup_app_Some in Hj as [Hj|[_ Hj]].
           ++ apply lookup_lt_Some in Hj. lia.
           ++ apply list_lookup_singleton_Some in Hj as [_ ->]. apply Qle_refl.
  - fold tl in Hinv. rewrite Hinv. simpl. intros H; inversion H; subst; clear H.
    split; [done|]. exists 0. split.
    + split; [by left|]. intros j el' _ Hj. simpl in Hj. lia.
    + exists 0, el. simpl. split_and!; try done; [|intros; lia].
      intros [|j] el' _ Hj; simpl in Hj; [|done]. inversion Hj; subst. apply Qle_refl.
Qed.

Lemma train_loop_restart m : ∀ k (t : Trainer) loc t' loc',
  length (train_loss loc) = k →
  restart_invariant loc →
  foldM epoch_body (t, loc) (seq k m) = Ok (t', loc') →
  Forall (λ el, (0 <= py_sum el)%Q) (train_loss loc') →
  restart_invariant loc'.
Proof.
  induction m as [|m IH]; intros k t loc t' loc' Hk Hinv H Hnn; simpl in H.
  - by inversion H; subst.
  - inv_bind H. destruct x as [t1 loc1].
    apply epoch_body_spec in E as (el & _ & Htl & Hbest).
    destruct (train_loop_extends _ _ _ _ _ H) as [new Hnew].
    pose proof Hnn as Hnn1.
    rewrite Hnew, Htl in Hnn1. apply Forall_app in Hnn1 as [Hnn1 _].
    apply (IH (S k) t1 loc1 t' loc'); [rewrite Htl, length_app; simpl; lia| |done|done].
    destruct loc1 as [tl1 bl1 bs1]. simpl in *. subst tl1 k.
    apply Forall_app in Hnn1 as [Hnn0 _].
    by eapply store_best_restart.
Qed.

(** X14. When no epoch total is negative, the snapshot that [train] leaves is
    the one of the first epoch with the least total among the epochs that
    come after the last epoch, the final one apart, whose total was zero (or
    among all epochs, if there is none): the comparison keeps the first
    least total, and starts afresh after a total of zero. *)
Theorem best_snapshot_is_first_minimum_since_zero (t t' : Trainer) tl best :
  train t = Ok t' → trained t' = Some (tl, Some best) →
  Forall (λ el, (0 <= py_sum el)%Q) tl →
  ∃ k, restart_point tl k ∧ first_minimum_from k tl best.
Proof.
  unfold train. intros H Htr Hnn. inv_bind H. destruct x as [t1 loc].
  inversion H; subst; clear H. simpl in Htr. inversion Htr; subst; clear Htr.
  apply train_loop_restart in E; [|done|done|done].
  unfold restart_invariant in E. rewrite H1 in E.
  destruct (best_loss loc); [|done]. by destruct E.
Qed.

(** ** The shape of [train_loss] *)

Lemma train_epoch_length (t t' : Trainer) el :
  train_epoch t = Ok (t', el) →
  (sampling t = true → length el = length (adj t) + n_labels t) ∧
  (sampling t = false →
   length (adj t) ≤ length el ≤ length (adj t) + n_labels t).
Proof.
  intros H. pose proof (epoch_accumulator_length t) as Hacc.
  unfold train_epoch in H. destruct (sampling t) eqn:Hs; split; try done; intros _.
  - inv_bind H. apply train_passes_spec in H as (_ & _ & _ & _ & Hlen); [|done].
    change (epoch_accumulator (bump t)) with (epoch_accumulator t) in Hlen. lia.
  - inv_bind H. destruct x as [[t1 out] ls]. inv_bind H. inversion H; subst; clear H.
    apply train_step_spec in E as (int_splits & n & currs & _ & Hn & Hall & _ & Hls & _).
    rewrite (n_batch_loaders_all t None Hs) in Hn. injection Hn as <-.
    assert (length (adj t) ≤ length ls) as Hlen.
    { subst ls. apply foldl_zip_with_length.
      - rewrite initial_losses_length. lia.
      - apply (Forall2_right _ _ _ _ Hall). intros b c [(p & d & Hc) _].
        apply (curr_losses_bounds _ _ _ _ _ _ (n_batch_loaders_all t None Hs)) in Hc. lia. }
    apply average_into_spec in E0 as [Hrlen _]. lia.
Qed.

(** X15. A completed training run leaves the configuration and the data
    untouched and records one list of losses per epoch.  With sub-sampling
    every list has one entry per graph and per label set; without, it has at
    least one entry per graph and at most that many.  A best snapshot exists
    exactly when at least one epoch was run, and names an epoch between 1
    and [epochs]. *)
Theorem train_loss_shape (t t' : Trainer) :
  train t = Ok t' →
  ∃ tl bs,
    trained t' = Some (tl, bs) ∧
    params t' = params t ∧ index t' = index t ∧ adj t' = adj t ∧
    labels t' = labels t ∧ label_masks t' = label_masks t ∧
    length tl = epochs (params t) ∧
    Forall (λ el,
      (sampling t = true → length el = length (adj t) + n_labels t) ∧
      (sampling t = false →
       length (adj t) ≤ length el ≤ length (adj t) + n_labels t)) tl ∧
    (bs = None ↔ epochs (params t) = 0) ∧
    (∀ b, bs = Some b → 1 ≤ bs_epoch b ≤ epochs (params t)).
Proof.
  intros H. pose proof H as Hrun.
  apply train_spec in H as (t1 & tl & bs & -> & Hsd & Hall & Hbest).
  assert (epochs (params t) = 0 → bs = None) as Hzero.
  { intros Hz. unfold train in Hrun. rewrite Hz in Hrun. simpl in Hrun.
    apply (f_equal (λ r, match r with Ok x => trained x | Raise _ => None end)) in Hrun.
    simpl in Hrun. by injection Hrun as _ <-. }
  exists tl, bs. pose proof Hsd as (Hp & Hi & Ha & Hl & Hm & _).
  simpl. split_and!; try done.
  - apply Forall2_length in Hall. by rewrite length_seq in Hall.
  - apply (Forall2_right _ _ _ _ Hall). intros _ el (t2 & t3 & Hsd2 & He).
    apply train_epoch_length in He.
    rewrite (sampling_same_data t t2 Hsd2), (n_labels_same_data t t2 Hsd2) in He.
    destruct Hsd2 as (_ & _ & Ha2 & _). rewrite Ha2 in He. done.
  - split.
    + intros ->. destruct (epochs (params t)) as [|n]; [done|].
      destruct Hbest as (b & Hb & _); [lia|done].
    + intros Hz. by apply Hzero.
  - intros b ->. destruct (epochs (params t)) as [|n] eqn:Hz.
    + by specialize (Hzero eq_refl).
    + destruct Hbest as (b' & Hb & Hrange); [lia|]. by injection Hb as <-.
Qed.

(** ** The divisor of the epoch losses without sub-sampling *)

Lemma Qnat_nonzero (n : nat) : 0 < n → ¬ (Qnat n == 0)%Q.
Proof.
  intros Hn Hz. unfold Qnat in Hz. change 0%Q with (inject_Z 0) in Hz.
  rewrite inject_Z_injective in Hz. lia.
Qed.

Lemma Qnat_mult (n m : nat) : (Qnat (n * m) == Qnat n * Qnat m)%Q.
Proof. unfold Qnat. by rewrite Nat2Z.inj_mul, inject_Z_mult. Qed.

Lemma n_batches_exact (n size : nat) :
  0 < size → 0 < n → n mod size = 0 → n_batches n size = n / size.
Proof.
  intros Hsize Hn Hmod. unfold n_batches.
  destruct (n =? 0) eqn:Hz; [apply Nat.eqb_eq in Hz; lia|].
  pose proof (Nat.div_mod_eq n size) as Hdiv.
  symmetry. apply Nat.div_unique with (size - 1); lia.
Qed.

(** X16. Without sub-sampling, the summed losses of an epoch are divided by
    [len(index) / batch_size], a true division: the recorded loss is the mean
    over the batches of the epoch exactly when [batch_size] divides the
    number of nodes. *)
Theorem batch_average_is_mean_iff_divisible (t : Trainer) :
  0 < batch_size (params t) → 0 < length (index t) →
  (∀ b_loss, ∃ avg,
     batch_average t b_loss = Ok avg ∧
     (avg == b_loss / Qnat (n_batches (length (index t)) (batch_size (params t))))%Q)
  ↔ length (index t) mod batch_size (params t) = 0.
Proof.
  intros Hbs Hn.
  set (N := length (index t)) in *. set (bs := batch_size (params t)) in *.
  assert (∀ b_loss, batch_average t b_loss = Ok (b_loss / (Qnat N / Qnat bs))%Q) as Havg.
  { intros b_loss. unfold batch_average. fold N bs.
    destruct (bs =? 0) eqn:Hb; [apply Nat.eqb_eq in Hb; lia|].
    destruct (N =? 0) eqn:Hz; [apply Nat.eqb_eq in Hz; lia|]. done. }
  pose proof (Qnat_nonzero bs Hbs) as Hbs0.
  split.
  - intros Hmean. destruct (Hmean 1%Q) as (avg & Ha & Heq).
    rewrite Havg in Ha. injection Ha as <-.
    apply Qinv_comp in Heq. unfold Qdiv in Heq.
    rewrite !Qmult_1_l, !Qinv_involutive in Heq.
    assert (Qnat N == Qnat bs * Qnat (n_batches N bs))%Q as Hprod.
    { rewrite <- Heq. fold (Qdiv (Qnat N) (Qnat bs)). by rewrite Qmult_div_r. }
    rewrite <- Qnat_mult in Hprod. unfold Qnat in Hprod.
    rewrite inject_Z_injective in Hprod. apply Nat2Z.inj in Hprod.
    rewrite Hprod, Nat.mul_comm. apply Nat.Div0.mod_mul.
  - intros Hmod b_loss. eexists. split; [apply Havg|].
    rewrite (n_batches_exact N bs Hbs Hn Hmod).
    assert (Qnat N / Qnat bs == Qnat (N / bs))%Q as ->; [|reflexivity].
    pose proof (Nat.div_mod_eq N bs) as Hdiv.
    replace N with (N / bs * bs) at 1 by lia.
    rewrite Qnat_mult. by apply Qdiv_mult_l.
Qed.

(** X17. Without sub-sampling, a run of one or more epochs over an empty node
    index and at least one graph never completes: when the first step goes
    through, dividing its losses by [len(index) / batch_size] raises
    [ZeroDivisionError]. *)
Theorem train_without_nodes_fails (t : Trainer) :
  sampling t = false → index t = [] → adj t ≠ [] → 0 < epochs (params t) →
  (∀ t', train t ≠ Ok t') ∧
  (∀ t1 out ls, _train_step t None = Ok (t1, out, ls) →
     train t = Raise ZeroDivisionError).
Proof.
  intros Hs Hidx Hadj Hpos.
  assert (∀ t1 out ls, _train_step t None = Ok (t1, out, ls) →
            train_epoch t = Raise ZeroDivisionError) as Hfail.
  { intros t1 out ls Hstep. unfold train_epoch. rewrite Hs, Hstep. simpl.
    apply train_step_spec in Hstep
      as (int_splits & n & currs & _ & Hn & Hall & _ & Hls & Hsd & _).
    rewrite (n_batch_loaders_all t None Hs) in Hn. injection Hn as <-.
    assert (length (adj t) ≤ length ls) as Hlen.
    { subst ls. apply foldl_zip_with_length.
      - rewrite initial_losses_length. lia.
      - apply (Forall2_right _ _ _ _ Hall). intros b c [(p & d & Hc) _].
        apply (curr_losses_bounds _ _ _ _ _ _ (n_batch_loaders_all t None Hs)) in Hc. lia. }
    pose proof (epoch_accumulator_length t) as Hacc.
    destruct (adj t) as [|a adj0] eqn:Ha; [done|]. simpl in Hlen, Hacc.
    destruct ls as [|b_loss ls']; [simpl in Hlen; lia|].
    destruct (epoch_accumulator t) as [|ep eps]; [simpl in Hacc; lia|].
    simpl. unfold batch_average.
    destruct Hsd as (_ & -> & _). rewrite Hidx. simpl.
    by rewrite orb_true_r. }
  split.
  - intros t' Ht'. destruct (train_epoch t) as [[t1 el]|e] eqn:He.
    + unfold train_epoch in He. rewrite Hs in He.
      destruct (_train_step t None) as [[[t2 out] ls]|e] eqn:Hstep; [|discriminate].
      specialize (Hfail t2 out ls eq_refl). discriminate.
    + rewrite (train_first_epoch t Hpos e He) in Ht'. discriminate.
  - intros t1 out ls Hstep. apply train_first_epoch; [done|]. by eapply Hfail.
Qed.

End MoreFacts.

(** ** Instances of the further properties *)

Lemma parse_file_name_round_trip_witness :
  parse_file_name "out/res_e100_lr0.001_d64_h4_l2_lam0.5_fold3.txt"
  = Ok {| f_epochs := "100"; f_learning_rate := "0.001"; f_gat_dim := "64";
          f_gat_heads := "4"; f_gat_layers := "2"; f_lambda := "0.5";
          f_folder := "3" |}.
Proof.
  exact (parse_file_name_round_trip
           "out/res" "e" "100" "lr" "0.001" "d" "64" "h" "4" "l" "2" "lam" "0.5"
           "fold" "3" "txt"
           eq_refl eq_refl eq_refl eq_refl eq_refl eq_refl eq_refl eq_refl eq_refl
           eq_refl eq_refl eq_refl eq_refl eq_refl eq_refl eq_refl eq_refl).
Defined.

Lemma train_step_visits_every_node_once_witness :
  let t := toy_trainer 0 5 (toy_config 1 2 None "xavier") 5 2 false in
  0 < batch_size (params t) ∧
  @stateful_sampler_step (toy 0 5) (draws t) (length (index t)) true
    ≡ₚ seq 0 (length (index t)) ∧
  ∃ t' out ls,
    _train_step t None = Ok (t', out, ls) ∧
    ∃ batches evs,
      torch_split (@stateful_sampler_step (toy 0 5) (draws t) (length (index t)) true)
        (batch_size (params t)) = Ok batches ∧
      mjoin (step_batches batches) ≡ₚ seq 0 (length (index t)) ∧
      NoDup (mjoin (step_batches batches)) ∧
      (∀ i b, step_batches batches !! i = Some b →
         length b ≤ batch_size (params t) ∧
         (S i < length batches → length b = batch_size (params t))) ∧
      log t' = log t ++ evs ∧
      n_updates evs = length batches ∧
      length batches = n_batches (length (index t)) (batch_size (params t)).
Proof.
  intros t. split; [vm_compute; lia|]. split; [reflexivity|].
  eexists _, _, _. split; [vm_compute; reflexivity|].
  eapply (train_step_visits_every_node_once t None);
    [vm_compute; reflexivity | vm_compute; lia | reflexivity].
Defined.

Lemma train_optimizer_update_count_witness :
  let t := toy_trainer 0 5 (toy_config 2 2 None "xavier") 5 2 false in
  0 < batch_size (params t) ∧
  (∀ d, length (@stateful_sampler_step (toy 0 5) d (length (index t)) true)
        = length (index t)) ∧
  ∃ t' evs,
    train t = Ok t' ∧
    log t' = log t ++ evs ∧
    n_updates evs = epochs (params t) * (passes_per_epoch t
      * n_batches (length (index t)) (batch_size (params t))) ∧
    n_zero_grads evs = n_updates evs ∧
    n_backwards evs = n_updates evs.
Proof.
  intros t. split; [vm_compute; lia|]. split; [intros d; reflexivity|].
  destruct (train t) as [t'|e] eqn:Ht; [|vm_compute in Ht; discriminate].
  destruct (train_optimizer_update_count t t') as (evs & H);
    [vm_compute; lia | intros d; reflexivity | exact Ht |].
  exists t', evs. split; [reflexivity | exact H].
Defined.

Lemma train_with_tensorboard_fails_witness :
  let cfg := {| epochs := 1; batch_size := 1; sample_size := None;
                initialization := "xavier"; load_pretrained_model := false;
                use_tensorboard := true |} in
  let t := toy_trainer 0 5 cfg 2 3 false in
  use_tensorboard (params t) = true ∧ length (adj t) ≤ 10 ∧ 0 < epochs (params t) ∧
  (∀ t', train t ≠ Ok t') ∧
  (∀ t1 el, train_epoch t = Ok (t1, el) → train t = Raise AttributeError).
Proof.
  intros cfg t. split; [reflexivity|]. split; [vm_compute; lia|]. split; [vm_compute; lia|].
  apply (train_with_tensorboard_fails t); [reflexivity | vm_compute; lia | vm_compute; lia].
Defined.

Lemma train_zero_epochs_then_forward_witness :
  let t := toy_trainer 0 5 (toy_config 0 1 None "xavier") 2 1 false in
  epochs (params t) = 0 ∧
  train t = Ok (with_trained t [] None) ∧
  (labels t = None → forward (with_trained t [] None) = Raise TypeError) ∧
  (labels t ≠ None →
   forward (with_trained t [] None)
   = Ok (emit (with_trained t [] None) EvEval, embed (model t) <$> index t)).
Proof.
  intros t. split; [reflexivity|].
  apply (train_zero_epochs_then_forward t). reflexivity.
Defined.

Lemma forward_before_train_witness :
  let cfg := toy_config 1 1 None "xavier" in
  let pre := @Build_Preprocessed (toy 0 5) [0; 1] [tt] None None in
  ∃ t,
    Trainer_init cfg pre = Ok t ∧
    (pp_labels pre = None → forward t = Raise AttributeError) ∧
    (pp_labels pre ≠ None →
     forward t = Ok (emit t EvEval, embed (model t) <$> index t)).
Proof.
  intros cfg pre. eexists. split; [vm_compute; reflexivity|].
  apply (forward_before_train cfg pre). vm_compute. reflexivity.
Defined.

Lemma trainer_init_success_conditions_witness :
  let cfg := {| epochs := 1; batch_size := 1; sample_size := None;
                initialization := "xavier"; load_pretrained_model := true;
                use_tensorboard := false |} in
  let pre := @Build_Preprocessed (toy 0 5) [0; 1] [tt] None None in
  ∃ t,
    Trainer_init cfg pre = Ok t ∧
    (initialization cfg = "kaiming" ∨ initialization cfg = "xavier" ∨
     Forall (λ m, has_weight m = false)
       (@modules (toy 0 5)
          (Bionic (length (pp_index pre)) (length (pp_adj pre))
             (n_classes_of (pp_labels pre))))) ∧
    (∃ initialized,
       foldM (_init_model_weights cfg)
         (Bionic (length (pp_index pre)) (length (pp_adj pre))
            (n_classes_of (pp_labels pre)))
         (@modules (toy 0 5)
            (Bionic (length (pp_index pre)) (length (pp_adj pre))
               (n_classes_of (pp_labels pre)))) = Ok initialized ∧
       if load_pretrained_model cfg
       then ∃ sd, @torch_load (toy 0 5) = Ok sd
                  ∧ load_state_dict sd initialized = Ok (model t)
       else model t = initialized) ∧
    params t = cfg ∧ index t = pp_index pre ∧ adj t = pp_adj pre ∧
    labels t = pp_labels pre ∧ label_masks t = pp_label_masks pre ∧
    trained t = None ∧ log t = [].
Proof.
  intros cfg pre. eexists. split; [vm_compute; reflexivity|].
  apply (trainer_init_success_conditions cfg pre). vm_compute. reflexivity.
Defined.

Lemma train_raises_when_sample_size_exceeds_graphs_witness :
  let t := toy_trainer 0 5 (toy_config 1 1 (Some 3) "xavier") 2 2 false in
  sampling t = true ∧ length (adj t) < sample_size_val t ∧ 0 < epochs (params t) ∧
  train t = Raise (ValueError "number sections must be larger than 0.").
Proof.
  intros t. split; [reflexivity|]. split; [vm_compute; lia|]. split; [vm_compute; lia|].
  apply (train_raises_when_sample_size_exceeds_graphs t);
    [reflexivity | vm_compute; lia | vm_compute; lia].
Defined.

Lemma sampled_group_sizes_witness :
  let t := toy_trainer 0 5 (toy_config 1 1 (Some 2) "xavier") 1 5 false in
  sampling t = true ∧
  length (@np_random_permutation (toy 0 5) (draws t) (length (adj t))) = length (adj t) ∧
  sample_size_val t ≤ length (adj t) ∧
  ∃ idx_split,
    array_split (@np_random_permutation (toy 0 5) (draws t) (length (adj t)))
      (length (adj t) / sample_size_val t) = Ok idx_split ∧
    length idx_split = length (adj t) / sample_size_val t ∧
    Forall (λ g, sample_size_val t ≤ length g ≤ 2 * sample_size_val t - 1) idx_split ∧
    (∀ g g', g ∈ idx_split → g' ∈ idx_split → length g ≤ length g' + 1) ∧
    (length (adj t) mod sample_size_val t = 0 →
     Forall (λ g, length g = sample_size_val t) idx_split).
Proof.
  intros t. split; [reflexivity|]. split; [reflexivity|]. split; [vm_compute; lia|].
  apply (sampled_group_sizes t); [reflexivity | reflexivity | vm_compute; lia].
Defined.

Lemma best_snapshot_is_first_minimum_since_zero_witness :
  let t := toy_trainer 0 5 (toy_config 3 1 None "xavier") 1 1 false in
  ∃ t' best,
    train t = Ok t' ∧
    trained t' = Some ([[0%Q]; [5%Q]; [10%Q]], Some best) ∧
    Forall (λ el, (0 <= py_sum el)%Q) [[0%Q]; [5%Q]; [10%Q]] ∧
    bs_epoch best = 2 ∧
    ∃ k, restart_point [[0%Q]; [5%Q]; [10%Q]] k ∧
         first_minimum_from k [[0%Q]; [5%Q]; [10%Q]] best.
Proof.
  intros t. eexists _, _. split; [vm_compute; reflexivity|].
  split; [vm_compute; reflexivity|].
  assert (Forall (λ el, (0 <= py_sum el)%Q) [[0%Q]; [5%Q]; [10%Q]]) as Hnn.
  { repeat constructor; apply Qle_bool_iff; vm_compute; reflexivity. }
  split; [exact Hnn|]. split; [reflexivity|].
  eapply (best_snapshot_is_first_minimum_since_zero t);
    [vm_compute; reflexivity | vm_compute; reflexivity | exact Hnn].
Defined.

Lemma train_loss_shape_witness :
  let t := toy_trainer 1 5 (toy_config 2 1 None "xavier") 2 2 true in
  ∃ t',
    train t = Ok t' ∧
    ∃ tl bs,
      trained t' = Some (tl, bs) ∧
      params t' = params t ∧ index t' = index t ∧ adj t' = adj t ∧
      labels t' = labels t ∧ label_masks t' = label_masks t ∧
      length tl = epochs (params t) ∧
      Forall (λ el,
        (sampling t = true → length el = length (adj t) + n_labels t) ∧
        (sampling t = false →
         length (adj t) ≤ length el ≤ length (adj t) + n_labels t)) tl ∧
      (bs = None ↔ epochs (params t) = 0) ∧
      (∀ b, bs = Some b → 1 ≤ bs_epoch b ≤ epochs (params t)).
Proof.
  intros t. eexists. split; [vm_compute; reflexivity|].
  apply (train_loss_shape t). vm_compute. reflexivity.
Defined.

Lemma batch_average_is_mean_iff_divisible_witness :
  let t := toy_trainer 0 5 (toy_config 1 2 None "xavier") 5 1 false in
  0 < batch_size (params t) ∧ 0 < length (index t) ∧
  ((∀ b_loss, ∃ avg,
      batch_average t b_loss = Ok avg ∧
      (avg == b_loss / Qnat (n_batches (length (index t)) (batch_size (params t))))%Q)
   ↔ length (index t) mod batch_size (params t) = 0).
Proof.
  intros t. split; [vm_compute; lia|]. split; [vm_compute; lia|].
  apply (batch_average_is_mean_iff_divisible t); vm_compute; lia.
Defined.

Lemma train_without_nodes_fails_witness :
  let t := toy_trainer 0 5 (toy_config 1 1 None "xavier") 0 1 false in
  sampling t = false ∧ index t = [] ∧ adj t ≠ [] ∧ 0 < epochs (params t) ∧
  (∀ t', train t ≠ Ok t') ∧
  (∀ t1 out ls, _train_step t None = Ok (t1, out, ls) →
     train t = Raise ZeroDivisionError).
Proof.
  intros t. split; [reflexivity|]. split; [reflexivity|]. split; [discriminate|].
  split; [vm_compute; lia|].
  apply (train_without_nodes_fails t); [reflexivity | reflexivity | discriminate | vm_compute; lia].
Defined.

Lemma best_snapshot_is_first_minimum_witness :
  let t := toy_trainer 0 5 (toy_config 2 1 None "xavier") 1 2 false in
  ∃ t' tl best,
    train t = Ok t' ∧ trained t' = Some (tl, Some best) ∧
    Forall (λ el, ¬ (py_sum el == 0)%Q) tl ∧
    first_minimum tl best.
Proof.
  intros t. eexists _, _, _. split; [vm_compute; reflexivity|].
  split; [vm_compute; reflexivity|].
  assert (∀ q : Q, Qeq_bool q 0 = false → ¬ (q == 0)%Q) as Hnz.
  { intros q Hq Heq. apply Qeq_bool_iff in Heq. congruence. }
  split; [repeat constructor; apply Hnz; vm_compute; reflexivity|].
  eapply (best_snapshot_is_first_minimum t); [vm_compute; reflexivity | reflexivity |].
  repeat constructor; apply Hnz; vm_compute; reflexivity.
Defined.

Lemma sampled_pass_slots_witness :
  let t := toy_trainer 1 5 (toy_config 1 1 (Some 2) "xavier") 1 4 true in
  sampling t = true ∧ encoder_contract t ∧ labels_paired t ∧
  ∃ t' el',
    train_pass (t, epoch_accumulator t) [2; 3] = Ok (t', el') ∧
    ∃ evs,
      log t' = log t ++ evs ∧
      recon_slots evs = [2; 3] ∧
      cls_slots evs = (λ k, length [2; 3] + k) <$> seq 0 (n_labels t).
Proof.
  intros t.
  assert (encoder_contract t) as Hc by (intros p d idx b; reflexivity).
  split; [reflexivity|]. split; [exact Hc|]. split; [reflexivity|].
  eexists _, _. split; [vm_compute; reflexivity|].
  eapply (sampled_pass_slots t (epoch_accumulator t) [2; 3]);
    [reflexivity | exact Hc | reflexivity |].
  vm_compute. reflexivity.
Defined.
